(** * nfc-mfra: MIFARE Classic random sector access

    A shallow embedding of the sector access engine of [utils/nfc-mfra.c]:
    the sector layout predicates, [authenticate] with its key-guessing loop,
    the magic-card [unlock_card] handshake, [read_sector], [write_sector]
    and the sector loop that ends [main].

    The NFC reader and the tag are an oracle ([respond]) that answers every
    library call from the history of the calls made so far; the program state
    records the calls and their answers in [trace], in the order they were
    issued.  Console output ([printf], and the block counters that only feed
    it) is not modelled. *)

From Stdlib Require Import ZArith Lia List Bool.
From stdpp Require Import base list.
Import ListNotations.
Local Open Scope Z_scope.

(** ** Machine integers and byte buffers *)

(** [uint32_t] arithmetic wraps modulo 2^32. *)
Definition wrap32 (z : Z) : Z := z mod 2 ^ 32.

(** [memcpy(dst + off, src, n)] on byte lists. *)
Definition memcpy (dst : list Z) (off : nat) (src : list Z) (n : nat) : list Z :=
  take off dst ++ take n src ++ drop (off + n)%nat dst.

(** [buf[i]] for a byte buffer. *)
Definition byte_at (buf : list Z) (i : nat) : Z := nth i buf 0.

(** ** SectorLayout: [is_first_block], [is_trailer_block], [get_trailer_block] *)

Definition is_first_block (uiBlock : Z) : bool :=
  if uiBlock <? 128 then uiBlock mod 4 =? 0 else uiBlock mod 16 =? 0.

Definition is_trailer_block (uiBlock : Z) : bool :=
  if uiBlock <? 128 then wrap32 (uiBlock + 1) mod 4 =? 0
  else wrap32 (uiBlock + 1) mod 16 =? 0.

Definition get_trailer_block (uiFirstBlock : Z) : Z :=
  if uiFirstBlock <? 128
  then wrap32 (uiFirstBlock + wrap32 (3 - uiFirstBlock mod 4))
  else wrap32 (uiFirstBlock + wrap32 (15 - uiFirstBlock mod 16)).

(** ** Card images

    A [mifare_classic_block] is a 16-byte union; a [mifare_classic_tag] is the
    array [amb] of 256 blocks.  The union members are byte ranges of the
    block: [mbd.abtData] is bytes 0..15, and the trailer view [mbt] is
    [abtKeyA] (bytes 0..5), [abtAccessBits] (bytes 6..9), [abtKeyB]
    (bytes 10..15). *)

Abbreviation mifare_classic_block := (list Z) (only parsing).
Abbreviation mifare_classic_tag := (list (list Z)) (only parsing).

Definition amb (t : mifare_classic_tag) (i : Z) : mifare_classic_block :=
  default [] (t !! Z.to_nat i).

Definition abtData (b : list Z) : list Z := take 16 b.
Definition abtKeyA (b : list Z) : list Z := take 6 b.
Definition abtAccessBits (b : list Z) : list Z := take 4 (drop 6 b).
Definition abtKeyB (b : list Z) : list Z := take 6 (drop 10 b).

(** [memcpy(t.amb[i] + off, src, n)]. *)
Definition store_amb (t : mifare_classic_tag) (i : Z) (off : nat)
    (src : list Z) (n : nat) : mifare_classic_tag :=
  alter (fun b => memcpy b off src n) (Z.to_nat i) t.

(** The built-in key dictionary [keys], nine 6-byte keys, and [num_keys]. *)
Definition keys : list Z :=
  [ 0xff; 0xff; 0xff; 0xff; 0xff; 0xff;
    0xd3; 0xf7; 0xd3; 0xf7; 0xd3; 0xf7;
    0xa0; 0xa1; 0xa2; 0xa3; 0xa4; 0xa5;
    0xb0; 0xb1; 0xb2; 0xb3; 0xb4; 0xb5;
    0x4d; 0x3a; 0x99; 0xc3; 0x51; 0xdd;
    0x1a; 0x98; 0x2c; 0x7e; 0x45; 0x9a;
    0xaa; 0xbb; 0xcc; 0xdd; 0xee; 0xff;
    0x00; 0x00; 0x00; 0x00; 0x00; 0x00;
    0xab; 0xcd; 0xef; 0x12; 0x34; 0x56 ].

Definition num_keys : nat := (length keys / 6)%nat.

(** [keys + key_index * 6], read as 6 bytes. *)
Definition key_at (key_index : nat) : list Z := take 6 (drop (key_index * 6)%nat keys).

Definition SECTOR_SIZE : Z := 4.

(** ** The reader and the tag *)

Inductive mifare_cmd := MC_AUTH_A | MC_AUTH_B | MC_READ | MC_WRITE.

Inductive nfc_property := NP_HANDLE_CRC | NP_EASY_FRAMING.

(** The library calls the sector engine makes, with the arguments that
    matter: [MifareCmd mc block mp] is
    [nfc_initiator_mifare_cmd(pnd, mc, block, &mp)] with the 16 bytes of [mp]
    at the time of the call. *)
Inductive command :=
| MifareCmd (mc : mifare_cmd) (ui8Block : Z) (pmp : list Z)
| SelectPassiveTarget (pbtInitData : list Z)
| SetPropertyBool (property : nfc_property) (bEnable : bool)
| TransceiveBits (pbtTx : list Z) (szTxBits : Z)
| TransceiveBytes (pbtTx : list Z) (szTx : Z)
| DumpOpen
| DumpWrite (image : mifare_classic_tag).

Record response := Response { r_ok : bool; r_data : list Z }.

Record event := Event { ev_cmd : command; ev_resp : response }.

(** What lies outside the file: the CRC routine of the library and the
    answers of reader, tag and file system, which may depend on every call
    made before. *)
Record nfc_library := NfcLibrary {
  iso14443a_crc : list Z -> list Z;
  respond : list command -> command -> response
}.

(** The flags [main] fixes before any sector is touched. *)
Record globals := Globals {
  bUseKeyA : bool;
  bUseKeyFile : bool;
  bTolerateFailures : bool;
  magic2 : bool;
  uiBlocks : Z
}.

(** The mutable globals: the selected target's UID ([nt.nti.nai.abtUid],
    [szUidLen] its length), the parameter union [mp] (16 bytes: [mpa.abtKey]
    is bytes 0..5, [mpa.abtAuthUid] bytes 6..9, [mpd.abtData] bytes 0..15),
    the two card images, the HALT frame, and the calls made so far. *)
Record state := State {
  nt_abtUid : list Z;
  mp : list Z;
  mtKeys : mifare_classic_tag;
  mtDump : mifare_classic_tag;
  abtHalt : list Z;
  trace : list event
}.

Definition set_nt_abtUid (v : list Z) (s : state) : state :=
  State v (mp s) (mtKeys s) (mtDump s) (abtHalt s) (trace s).
Definition set_mp (v : list Z) (s : state) : state :=
  State (nt_abtUid s) v (mtKeys s) (mtDump s) (abtHalt s) (trace s).
Definition set_mtKeys (v : mifare_classic_tag) (s : state) : state :=
  State (nt_abtUid s) (mp s) v (mtDump s) (abtHalt s) (trace s).
Definition set_mtDump (v : mifare_classic_tag) (s : state) : state :=
  State (nt_abtUid s) (mp s) (mtKeys s) v (abtHalt s) (trace s).
Definition set_abtHalt (v : list Z) (s : state) : state :=
  State (nt_abtUid s) (mp s) (mtKeys s) (mtDump s) v (trace s).
Definition set_trace (v : list event) (s : state) : state :=
  State (nt_abtUid s) (mp s) (mtKeys s) (mtDump s) (abtHalt s) v.

(** ** A state monad for the C code *)

Definition M (A : Type) : Type := state -> A * state.

Definition ret {A : Type} (a : A) : M A := fun s => (a, s).

Definition bind {A B : Type} (m : M A) (k : A -> M B) : M B :=
  fun s => let (a, s') := m s in k a s'.

Definition get : M state := fun s => (s, s).

Definition modify (f : state -> state) : M unit := fun s => (tt, f s).

Notation "x <- c ;; k" := (bind c (fun x => k))
  (at level 100, c at next level, right associativity).
Notation "c ;;; k" := (bind c (fun _ => k))
  (at level 100, right associativity).

(** How one iteration of a sector loop ends: with [return false], with
    [continue], or by reaching the end of the body with the new [bFailure]. *)
Inductive iteration :=
| ReturnFalse
| ContinueLoop
| EndOfBody (bFailure : bool).

(** ** The sector engine *)

Section SectorEngine.

Variable lib : nfc_library.
Variable g : globals.

(** One library call: the oracle answers from the calls made so far, and the
    call is appended to [trace] with its answer. *)
Definition call (c : command) : M response := fun s =>
  let r := respond lib (map ev_cmd (trace s)) c in
  (r, set_trace (trace s ++ [Event c r]) s).

(** Modelled from the spec: [nfc_initiator_mifare_cmd] (utils/mifare.c), the
    CardProtocol collaborator: [auth(block, key, key_type) -> bool],
    [read_block(block) -> 16 bytes | error],
    [write_block(block, 16 bytes) -> bool].  It is handed [&mp]; a successful
    read leaves the 16 bytes read in [mp.mpd.abtData]. *)
Definition nfc_initiator_mifare_cmd (mc : mifare_cmd) (ui8Block : Z) : M bool :=
  s <- get ;;
  r <- call (MifareCmd mc ui8Block (mp s)) ;;
  match mc with
  | MC_READ =>
      if r_ok r && (length (r_data r) =? 16)%nat
      then modify (set_mp (memcpy (mp s) 0 (r_data r) 16)) ;;; ret true
      else ret false
  | _ => ret (r_ok r)
  end.

(** Modelled from the spec: [nfc_initiator_select_passive_target] of the
    library, the Transceiver's [select_target() -> target_info | none].  The
    result is [true] when the call returns a positive count; with a non-NULL
    [pnt] (here always [&nt]) a found target replaces [nt]. *)
Definition nfc_initiator_select_passive_target (pbtInitData : list Z)
    (pnt : bool) : M bool :=
  r <- call (SelectPassiveTarget pbtInitData) ;;
  if r_ok r then
    (if pnt then modify (set_nt_abtUid (r_data r)) else ret tt) ;;; ret true
  else ret false.

(** Modelled from the spec: [nfc_device_set_property_bool] of the library,
    the Transceiver's [configure(option, bool)]; [true] when the call returns
    a non-negative code. *)
Definition nfc_device_set_property_bool (property : nfc_property)
    (bEnable : bool) : M bool :=
  r <- call (SetPropertyBool property bEnable) ;;
  ret (r_ok r).

(** [iso14443a_crc_append(pbtData, szLen)]: the two CRC bytes of the first
    [szLen] bytes are stored after them. *)
Definition iso14443a_crc_append (pbtData : list Z) (szLen : nat) : list Z :=
  memcpy pbtData szLen (iso14443a_crc lib (take szLen pbtData)) 2.

Definition transmit_bits (pbtTx : list Z) (szTxBits : Z) : M bool :=
  r <- call (TransceiveBits pbtTx szTxBits) ;;
  ret (r_ok r).

Definition transmit_bytes (pbtTx : list Z) (szTx : Z) : M bool :=
  r <- call (TransceiveBytes pbtTx szTx) ;;
  ret (r_ok r).

Definition abtUnlock1 : list Z := [0x40].
Definition abtUnlock2 : list Z := [0x43].

(** The key-guessing loop of [authenticate]:
    [for (key_index = 0; key_index < num_keys; key_index++)], with
    [remaining = num_keys - key_index] iterations left. *)
Fixpoint guess_keys (mc : mifare_cmd) (uiBlock : Z) (remaining key_index : nat)
    : M bool :=
  match remaining with
  | O => ret false
  | S remaining' =>
      modify (fun s =>
        set_mp (memcpy (mp s) 0 (drop (key_index * 6)%nat keys) 6) s) ;;;
      ok <- nfc_initiator_mifare_cmd mc uiBlock ;;
      if ok then
        modify (fun s =>
          set_mtKeys
            (store_amb (mtKeys s) uiBlock (if bUseKeyA g then 0 else 10)%nat
               (mp s) 6) s) ;;;
        ret true
      else
        s <- get ;;
        _ <- nfc_initiator_select_passive_target (nt_abtUid s) false ;;
        guess_keys mc uiBlock remaining' (S key_index)
  end.

Definition authenticate (uiBlock : Z) : M bool :=
  modify (fun s =>
    set_mp (memcpy (mp s) 6
              (drop (length (nt_abtUid s) - 4)%nat (nt_abtUid s)) 4) s) ;;;
  let mc := if bUseKeyA g then MC_AUTH_A else MC_AUTH_B in
  if bUseKeyFile g then
    let uiTrailerBlock := get_trailer_block uiBlock in
    modify (fun s =>
      set_mp (memcpy (mp s) 0
                ((if bUseKeyA g then abtKeyA else abtKeyB)
                   (amb (mtKeys s) uiTrailerBlock)) 6) s) ;;;
    nfc_initiator_mifare_cmd mc uiBlock
  else
    guess_keys mc uiBlock num_keys 0.

Definition unlock_card : M bool :=
  if magic2 g then ret false else
  crc <- nfc_device_set_property_bool NP_HANDLE_CRC false ;;
  if negb crc then ret false else
  framing <- nfc_device_set_property_bool NP_EASY_FRAMING false ;;
  if negb framing then ret false else
  modify (fun s => set_abtHalt (iso14443a_crc_append (abtHalt s) 2) s) ;;;
  s <- get ;;
  _ <- transmit_bytes (abtHalt s) 4 ;;
  unlock1 <- transmit_bits abtUnlock1 7 ;;
  if negb unlock1 then ret false else
  unlock2 <- transmit_bytes abtUnlock2 1 ;;
  if negb unlock2 then ret false else
  crc' <- nfc_device_set_property_bool NP_HANDLE_CRC true ;;
  if negb crc' then ret false else
  framing' <- nfc_device_set_property_bool NP_EASY_FRAMING true ;;
  if negb framing' then ret false else
  ret true.

(** The body of the loop of [read_sector] for block [iBlock]. *)
Definition read_block (read_unlocked : bool) (iBlock : Z) (bFailure : bool)
    : M iteration :=
  if is_trailer_block iBlock then
    selected <- (if bFailure
                 then nfc_initiator_select_passive_target [] true
                 else ret true) ;;
    if negb selected then ret ReturnFalse else
    authenticated <- (if read_unlocked then ret true
                      else authenticate iBlock) ;;
    if negb authenticated then ret ReturnFalse else
    ok <- nfc_initiator_mifare_cmd MC_READ iBlock ;;
    if ok then
      modify (fun s =>
        if read_unlocked then
          set_mtDump (store_amb (mtDump s) iBlock 0 (mp s) 16) s
        else
          let d1 := store_amb (mtDump s) iBlock 0
                      (abtKeyA (amb (mtKeys s) iBlock)) 6 in
          let d2 := store_amb d1 iBlock 6 (drop 6 (mp s)) 4 in
          let d3 := store_amb d2 iBlock 10
                      (abtKeyB (amb (mtKeys s) iBlock)) 6 in
          set_mtDump d3 s) ;;;
      ret (EndOfBody false)
    else ret (EndOfBody true)
  else
    if negb bFailure then
      ok <- nfc_initiator_mifare_cmd MC_READ iBlock ;;
      if ok then
        modify (fun s =>
          set_mtDump (store_amb (mtDump s) iBlock 0 (mp s) 16) s) ;;;
        ret (EndOfBody false)
      else ret (EndOfBody true)
    else ret (EndOfBody bFailure).

(** [for (iBlock = iTrailerBlock; iBlock >= iFirstDataBlock; iBlock--)] over
    the blocks still to visit. *)
Fixpoint read_blocks (read_unlocked : bool) (blocks : list Z) (bFailure : bool)
    : M bool :=
  match blocks with
  | [] => ret true
  | iBlock :: rest =>
      it <- read_block read_unlocked iBlock bFailure ;;
      match it with
      | ReturnFalse => ret false
      | ContinueLoop => read_blocks read_unlocked rest bFailure
      | EndOfBody bFailure' =>
          if negb (bTolerateFailures g) && bFailure' then ret false
          else read_blocks read_unlocked rest bFailure'
      end
  end.

(** The blocks [iFirstDataBlock .. iTrailerBlock], ascending. *)
Definition sector_blocks (iSector : Z) : list Z :=
  let iTrailerBlock := (iSector + 1) * 4 - 1 in
  let iFirstDataBlock := iTrailerBlock - SECTOR_SIZE + 1 in
  seqZ iFirstDataBlock (iTrailerBlock - iFirstDataBlock + 1).

Definition read_sector (iSector : Z) (read_unlocked : bool) : M bool :=
  unlocked <- (if read_unlocked then unlock_card else ret true) ;;
  if negb unlocked then ret false else
  read_blocks read_unlocked (reverse (sector_blocks iSector)) false.

(** The block-0 test of [write_sector]: the XOR of [abtData[0..4]] is not 0. *)
Definition bcc_incorrect (d : list Z) : bool :=
  negb (Z.lxor (Z.lxor (Z.lxor (Z.lxor (byte_at d 0) (byte_at d 1))
                          (byte_at d 2)) (byte_at d 3)) (byte_at d 4) =? 0).

(** The body of the loop of [write_sector] for block [uiBlock]. *)
Definition write_block (write_block_zero : bool) (uiBlock : Z)
    (bFailure : bool) : M iteration :=
  entered <- (if is_first_block uiBlock then
                selected <- (if bFailure
                             then nfc_initiator_select_passive_target [] true
                             else ret true) ;;
                if negb selected then ret None else
                authenticated <- (if write_block_zero then ret true
                                  else authenticate uiBlock) ;;
                if negb authenticated then ret None else ret (Some false)
              else ret (Some bFailure)) ;;
  match entered with
  | None => ret ReturnFalse
  | Some bFailure =>
      if is_trailer_block uiBlock then
        modify (fun s =>
          let b := amb (mtDump s) uiBlock in
          let p1 := memcpy (mp s) 0 (abtKeyA b) 6 in
          let p2 := memcpy p1 6 (abtAccessBits b) 4 in
          let p3 := memcpy p2 10 (abtKeyB b) 6 in
          set_mp p3 s) ;;;
        ok <- nfc_initiator_mifare_cmd MC_WRITE uiBlock ;;
        ret (EndOfBody (if ok then bFailure else true))
      else
        if (uiBlock =? 0) && negb write_block_zero && negb (magic2 g)
        then ret ContinueLoop else
        if negb bFailure then
          modify (fun s =>
            set_mp (memcpy (mp s) 0 (abtData (amb (mtDump s) uiBlock)) 16) s) ;;;
          s <- get ;;
          if (uiBlock =? 0) && (bcc_incorrect (mp s) && negb (magic2 g))
          then ret ReturnFalse else
          ok <- nfc_initiator_mifare_cmd MC_WRITE uiBlock ;;
          ret (EndOfBody (if ok then bFailure else true))
        else ret (EndOfBody bFailure)
  end.

(** [for (uiBlock = iFirstDataBlock; uiBlock <= iTrailerBlock; uiBlock++)]
    over the blocks still to visit. *)
Fixpoint write_blocks (write_block_zero : bool) (blocks : list Z)
    (bFailure : bool) : M bool :=
  match blocks with
  | [] => ret true
  | uiBlock :: rest =>
      it <- write_block write_block_zero uiBlock bFailure ;;
      match it with
      | ReturnFalse => ret false
      | ContinueLoop => write_blocks write_block_zero rest bFailure
      | EndOfBody bFailure' =>
          if negb (bTolerateFailures g) && bFailure' then ret false
          else write_blocks write_block_zero rest bFailure'
      end
  end.

Definition write_sector (iSector : Z) (write_block_zero : bool) : M bool :=
  unlocked <- (if write_block_zero then unlock_card else ret true) ;;
  if negb unlocked then ret false else
  write_blocks write_block_zero (sector_blocks iSector) false.

(** The end of [main]: the loop over the chosen sectors and the exit code. *)
Inductive action_t := ACTION_READ | ACTION_WRITE | ACTION_USAGE.

Definition EXIT_SUCCESS : Z := 0.
Definition EXIT_FAILURE : Z := 1.

Fixpoint main_sectors (atAction : action_t) (unlock : bool) (lSector : list Z)
    : M Z :=
  match lSector with
  | [] => ret EXIT_SUCCESS
  | iSector :: rest =>
      match atAction with
      | ACTION_READ =>
          ok <- read_sector iSector unlock ;;
          if ok then
            pfDump <- call DumpOpen ;;
            if negb (r_ok pfDump) then ret EXIT_FAILURE else
            s <- get ;;
            written <- call (DumpWrite
                               (take (Z.to_nat (uiBlocks g + 1)) (mtDump s))) ;;
            if negb (r_ok written) then ret EXIT_FAILURE else
            main_sectors atAction unlock rest
          else main_sectors atAction unlock rest
      | ACTION_WRITE =>
          _ <- write_sector iSector unlock ;;
          main_sectors atAction unlock rest
      | ACTION_USAGE => main_sectors atAction unlock rest
      end
  end.

End SectorEngine.

(** ** Reading a trace *)

#[global] Instance mifare_cmd_eq_dec : EqDecision mifare_cmd.
Proof. solve_decision. Defined.

(** The calls made between state [s] and a later state [s']. *)
Definition emitted (s s' : state) : list event :=
  drop (length (trace s)) (trace s').

(** Whether the caller saw the call succeed: a block read succeeds when the
    tag answers with 16 bytes, any other call when its result says so. *)
Definition succeeded (e : event) : bool :=
  match ev_cmd e with
  | MifareCmd MC_READ _ _ =>
      r_ok (ev_resp e) && (length (r_data (ev_resp e)) =? 16)%nat
  | _ => r_ok (ev_resp e)
  end.

(** The block of a MIFARE command of kind [mc]. *)
Definition mifare_block (mc : mifare_cmd) (e : event) : option Z :=
  match ev_cmd e with
  | MifareCmd mc' b _ => if decide (mc' = mc) then Some b else None
  | _ => None
  end.

(** The blocks for which command [mc] was issued, in the order of issue. *)
Definition blocks_of (mc : mifare_cmd) (evs : list event) : list Z :=
  omap (mifare_block mc) evs.

Definition is_auth (c : command) : bool :=
  match c with
  | MifareCmd MC_AUTH_A _ _ | MifareCmd MC_AUTH_B _ _ => true
  | _ => false
  end.

Definition is_select (c : command) : bool :=
  match c with SelectPassiveTarget _ => true | _ => false end.

(** The HALT frame is the only 4-byte frame the engine transmits. *)
Definition is_halt (c : command) : bool :=
  match c with TransceiveBytes _ 4 => true | _ => false end.

Definition count_cmds (p : command -> bool) (cmds : list command) : nat :=
  length (filter (fun c => p c = true) cmds).

(** The calls of a complete unlock handshake, [halt] being the HALT frame
    with its CRC. *)
Definition unlock_cmds (halt : list Z) : list command :=
  [ SetPropertyBool NP_HANDLE_CRC false;
    SetPropertyBool NP_EASY_FRAMING false;
    TransceiveBytes halt 4;
    TransceiveBits [0x40] 7;
    TransceiveBytes [0x43] 1;
    SetPropertyBool NP_HANDLE_CRC true;
    SetPropertyBool NP_EASY_FRAMING true ].

Definition all_ok_but_halt (evs : list event) : bool :=
  forallb (fun e => is_halt (ev_cmd e) || r_ok (ev_resp e)) evs.

(** The calls of a key-guessing sweep that stops at candidate [k] (counted
    from 1): an attempt with each of the first [k] keys, and a re-select
    after each of the first [k - 1].  [p] is [mp] on entry, with the UID
    already in place. *)
Fixpoint guess_cmds (mc : mifare_cmd) (uiBlock : Z) (uid p : list Z)
    (key_index k : nat) : list command :=
  match k with
  | O => []
  | S O => [MifareCmd mc uiBlock (memcpy p 0 (drop (key_index * 6)%nat keys) 6)]
  | S k' =>
      let p' := memcpy p 0 (drop (key_index * 6)%nat keys) 6 in
      MifareCmd mc uiBlock p' :: SelectPassiveTarget uid
        :: guess_cmds mc uiBlock uid p' (S key_index) k'
  end.

(** ** Concrete readers, tags and states *)

Definition zero_block : mifare_classic_block := replicate 16 0.

Definition blank_tag : mifare_classic_tag := replicate 256 zero_block.

(** A selected tag with UID 04 12 34 56 and empty card images. *)
Definition s0 : state :=
  State [0x04; 0x12; 0x34; 0x56] zero_block blank_tag blank_tag
        [0x50; 0x00; 0x00; 0x00] [].

(** [s0] with [block0] as block 0 of the dump to write. *)
Definition s_dump0 (block0 : mifare_classic_block) : state :=
  set_mtDump (<[0%nat := block0]> blank_tag) s0.

Definition no_crc (_ : list Z) : list Z := [0x57; 0xcd].

Definition answer_ok : response := Response true (replicate 16 0xAA).
Definition answer_fail : response := Response false [].

(** Every call succeeds. *)
Definition lib_ok : nfc_library := NfcLibrary no_crc (fun _ _ => answer_ok).

(** Every call fails. *)
Definition lib_fail : nfc_library := NfcLibrary no_crc (fun _ _ => answer_fail).

(** The tag rejects every authentication; all else succeeds. *)
Definition lib_no_auth : nfc_library :=
  NfcLibrary no_crc (fun _ c => if is_auth c then answer_fail else answer_ok).

(** The tag answers nothing to HALT; all else succeeds. *)
Definition lib_halt_silent : nfc_library :=
  NfcLibrary no_crc (fun _ c => if is_halt c then answer_fail else answer_ok).

(** The tag accepts exactly the key [key]. *)
Definition lib_key (key : list Z) : nfc_library :=
  NfcLibrary no_crc (fun _ c =>
    match c with
    | MifareCmd MC_AUTH_A _ p | MifareCmd MC_AUTH_B _ p =>
        if decide (take 6 p = key) then answer_ok else answer_fail
    | _ => answer_ok
    end).

(** The tag rejects the command [mc] on block [b]; all else succeeds. *)
Definition lib_reject (mc : mifare_cmd) (b : Z) : nfc_library :=
  NfcLibrary no_crc (fun _ c =>
    match c with
    | MifareCmd mc' b' _ =>
        if decide (mc' = mc) then if b' =? b then answer_fail else answer_ok
        else answer_ok
    | _ => answer_ok
    end).

(** Flags: key A, key guessing, failures tolerated, a 1K card. *)
Definition g_guess : globals := Globals true false true false 0x3f.
(** Flags: key B, key guessing. *)
Definition g_guess_b : globals := Globals false false true false 0x3f.
(** Flags: key A, keys from a key file. *)
Definition g_keyfile : globals := Globals true true true false 0x3f.
(** Flags: key A, key guessing, failures not tolerated. *)
Definition g_strict : globals := Globals true false false false 0x3f.
(** Flags: a magic2 card. *)
Definition g_magic2 : globals := Globals true false true true 0x3f.

(** The event of a call [c] made in state [s]. *)
Definition event_of (lib : nfc_library) (c : command) (s : state) : event :=
  Event c (respond lib (map ev_cmd (trace s)) c).

(** The tag rejects, or accepts, candidate [j] of the dictionary for the
    authentication command [mc] on block [b], whatever was sent before. *)
Definition rejects_key (lib : nfc_library) (mc : mifare_cmd) (b : Z) (j : nat)
    : Prop :=
  forall h p, take 6 p = key_at j ->
    r_ok (respond lib h (MifareCmd mc b p)) = false.

Definition accepts_key (lib : nfc_library) (mc : mifare_cmd) (b : Z) (j : nat)
    : Prop :=
  forall h p, take 6 p = key_at j ->
    r_ok (respond lib h (MifareCmd mc b p)) = true.

(** ** Proof steps for monadic code *)

(** Split a run [(x <- m ;; k) s = r] into the run of [m] and the run of
    [k] from the state [m] leaves. *)
Ltac bind_inv H :=
  match type of H with
  | bind ?m ?k ?s = _ =>
      let a := fresh "a" in
      let s1 := fresh "s" in
      let Hm := fresh "Hm" in
      change (bind m k s) with (let (a', s') := m s in k a' s') in H;
      destruct (m s) as [a s1] eqn:Hm;
      cbv beta in H
  end.

(** The same, naming the result [a], the state [s1] and the run [Hm] of
    the first step. *)
Ltac bind_inv_as H a s1 Hm :=
  match type of H with
  | bind ?m ?k ?s = _ =>
      change (bind m k s) with (let (a', s') := m s in k a' s') in H;
      destruct (m s) as [a s1] eqn:Hm;
      cbv beta in H
  end.

(** Run the primitive steps of a hypothesis. *)
Ltac run_in H := unfold bind, ret, get, modify, call in H; simpl in H.

(** Whether an event is the MIFARE command [mc]. *)
Definition is_cmd (mc : mifare_cmd) (e : event) : bool :=
  match mifare_block mc e with Some _ => true | None => false end.

(** Whether an event reads or writes a block. *)
Definition block_io (e : event) : bool :=
  is_cmd MC_READ e || is_cmd MC_WRITE e.

(** What a run of the read loop from its first block looks like. *)
Definition read_run (g : globals) (blocks : list Z) (r : bool)
    (evs : list event) : Prop :=
  Forall (fun e => is_cmd MC_READ e = true) evs /\
  blocks_of MC_READ evs `prefix_of` blocks /\
  (bTolerateFailures g = false ->
   forall e, e ∈ evs -> succeeded e = false -> r = false /\ last evs = Some e) /\
  (forallb succeeded evs = true -> r = true /\ blocks_of MC_READ evs = blocks).

(** Case analysis on the answers of the library calls a hypothesis
    branches on, in the order of the calls. *)
Ltac split_calls H :=
  repeat match type of H with
  | context [negb (r_ok ?x)] =>
      let E := fresh "E" in destruct (r_ok x) eqn:E; simpl in H
  end.

(** What a run of the write loop over [blocks], entered with [bFailure = bf],
    looks like: only block writes, in the order of the blocks; after a failed
    write, and from the start when [bf] is set, only trailer blocks are
    written; with failure tolerance off, a failed write ends the run. *)
Definition write_run (g : globals) (blocks : list Z) (bf r : bool)
    (evs : list event) : Prop :=
  Forall (fun e => is_cmd MC_WRITE e = true) evs /\
  blocks_of MC_WRITE evs `sublist_of` blocks /\
  (bf = true ->
   Forall (fun b => is_trailer_block b = true) (blocks_of MC_WRITE evs)) /\
  (forall pre e post, evs = pre ++ e :: post -> succeeded e = false ->
   Forall (fun b => is_trailer_block b = true) (blocks_of MC_WRITE post)) /\
  (bTolerateFailures g = false -> bf = false ->
   forall e, e ∈ evs -> succeeded e = false -> r = false /\ last evs = Some e).

(** ** Guessing the card size

    The block of [main] that sets [uiBlocks] and [magic2] from the target's
    ATQA and SAK and from the answer to RATS: [atqa1] is
    [nt.nti.nai.abtAtqa[1]], [sak] is [nt.nti.nai.btSak], [res] the result of
    [get_rats] and [rx] the bytes of [abtRx].  The result is the pair
    ([uiBlocks], [magic2]), [magic2] being [false] before. *)
Definition guess_size (atqa1 sak res : Z) (rx : list Z) : Z * bool :=
  let uiBlocks0 :=
    if Z.land atqa1 0x02 =? 0x02 then 0xff
    else if Z.land sak 0x01 =? 0x01 then 0x13
    else 0x3f in
  if 0 <? res then
    let uiBlocks1 :=
      if (10 <=? res) && (byte_at rx 5 =? 0xc1) && (byte_at rx 6 =? 0x05)
         && (byte_at rx 7 =? 0x2f) && (byte_at rx 8 =? 0x2f)
         && (Z.land atqa1 0x02 =? 0x00)
      then 0x7f else uiBlocks0 in
    let magic :=
      (res =? 9) && (byte_at rx 5 =? 0xda) && (byte_at rx 6 =? 0xbc)
      && (byte_at rx 7 =? 0x19) && (byte_at rx 8 =? 0x10) in
    (uiBlocks1, magic)
  else (uiBlocks0, false).

(** An event that is neither an authentication attempt nor a re-select. *)
Definition no_auth_no_select (e : event) : Prop :=
  is_auth (ev_cmd e) = false /\ is_select (ev_cmd e) = false.

(** * Properties *)

(** ** SectorLayout *)

Lemma wrap32_small (z : Z) : 0 <= z < 2 ^ 32 -> wrap32 z = z.
Proof. intros H. unfold wrap32. apply Z.mod_small. exact H. Qed.

Lemma get_trailer_block_low (f : Z) :
  0 <= f < 128 -> get_trailer_block f = f + (3 - f mod 4).
Proof.
  intros H. unfold get_trailer_block.
  destruct (Z.ltb_spec f 128); [|lia].
  assert (0 <= f mod 4 < 4) by (apply Z.mod_pos_bound; lia).
  rewrite (wrap32_small (3 - f mod 4)) by (change (2 ^ 32) with 4294967296; lia).
  apply wrap32_small. change (2 ^ 32) with 4294967296. lia.
Qed.

Lemma get_trailer_block_high (f : Z) :
  128 <= f < 2 ^ 32 -> get_trailer_block f = f + (15 - f mod 16).
Proof.
  intros H. unfold get_trailer_block.
  destruct (Z.ltb_spec f 128); [lia|].
  assert (0 <= f mod 16 < 16) by (apply Z.mod_pos_bound; lia).
  rewrite (wrap32_small (15 - f mod 16)) by (change (2 ^ 32) with 4294967296; lia).
  apply wrap32_small. change (2 ^ 32) with 4294967296 in *.
  Z.div_mod_to_equations. lia.
Qed.

Lemma is_trailer_block_low (b : Z) :
  0 <= b < 128 -> is_trailer_block b = ((b + 1) mod 4 =? 0).
Proof.
  intros H. unfold is_trailer_block.
  destruct (Z.ltb_spec b 128); [|lia].
  rewrite wrap32_small by (change (2 ^ 32) with 4294967296; lia). reflexivity.
Qed.

Lemma is_trailer_block_high (b : Z) :
  128 <= b < 2 ^ 32 -> is_trailer_block b = ((b + 1) mod 16 =? 0).
Proof.
  intros H. unfold is_trailer_block.
  destruct (Z.ltb_spec b 128); [lia|].
  unfold wrap32. change (2 ^ 32) with (268435456 * 16) in *.
  destruct (Z.eq_dec b (268435456 * 16 - 1)) as [->|Hne].
  - reflexivity.
  - rewrite (Z.mod_small (b + 1)) by lia. reflexivity.
Qed.

(** [get_trailer_block] lands on a trailer block of the 32-bit range. *)
Lemma get_trailer_block_is_trailer (b : Z) :
  0 <= b < 2 ^ 32 ->
  0 <= get_trailer_block b /\ is_trailer_block (get_trailer_block b) = true.
Proof.
  intros Hb. change (2 ^ 32) with 4294967296 in *.
  destruct (Z_lt_ge_dec b 128) as [Hlo|Hhi].
  - rewrite get_trailer_block_low by lia.
    assert (0 <= b mod 4 < 4) by (apply Z.mod_pos_bound; lia).
    pose proof (Z.div_mod b 4 ltac:(lia)) as Hdm.
    assert (Ht : b + (3 - b mod 4) = 4 * (b / 4) + 3) by lia.
    assert (b / 4 <= 31) by (Z.div_mod_to_equations; lia).
    split; [lia|].
    rewrite is_trailer_block_low by lia.
    rewrite Ht. replace (4 * (b / 4) + 3 + 1) with ((b / 4 + 1) * 4) by lia.
    rewrite Z.mod_mul by lia. reflexivity.
  - rewrite get_trailer_block_high by (change (2 ^ 32) with 4294967296; lia).
    assert (0 <= b mod 16 < 16) by (apply Z.mod_pos_bound; lia).
    pose proof (Z.div_mod b 16 ltac:(lia)) as Hdm.
    assert (Ht : b + (15 - b mod 16) = 16 * (b / 16) + 15) by lia.
    assert (b / 16 <= 268435455) by (Z.div_mod_to_equations; lia).
    split; [lia|].
    rewrite is_trailer_block_high by (change (2 ^ 32) with 4294967296; lia).
    rewrite Ht. replace (16 * (b / 16) + 15 + 1) with ((b / 16 + 1) * 16) by lia.
    rewrite Z.mod_mul by lia. reflexivity.
Qed.

(** C9: below block 128 a block is a trailer exactly when [(b+1) mod 4 = 0],
    from block 128 on exactly when [(b+1) mod 16 = 0]; and
    [get_trailer_block f] is the trailer of the sector that contains [f]: it
    is a trailer block, it is not before [f], and no block from [f] up to it
    is a trailer. *)
Theorem trailer_block_layout (b : Z) :
  0 <= b < 2 ^ 32 ->
  (b < 128 -> is_trailer_block b = ((b + 1) mod 4 =? 0)) /\
  (128 <= b -> is_trailer_block b = ((b + 1) mod 16 =? 0)) /\
  b <= get_trailer_block b < 2 ^ 32 /\
  is_trailer_block (get_trailer_block b) = true /\
  (forall x, b <= x < get_trailer_block b -> is_trailer_block x = false).
Proof.
  intros Hb. change (2 ^ 32) with 4294967296 in *.
  split; [|split].
  - intros H. apply is_trailer_block_low. lia.
  - intros H. apply is_trailer_block_high. change (2 ^ 32) with 4294967296. lia.
  - destruct (Z_lt_ge_dec b 128) as [Hlo|Hhi].
    + rewrite get_trailer_block_low by lia.
      assert (0 <= b mod 4 < 4) by (apply Z.mod_pos_bound; lia).
      pose proof (Z.div_mod b 4 ltac:(lia)) as Hdm.
      assert (Ht : b + (3 - b mod 4) = 4 * (b / 4) + 3) by lia.
      assert (b / 4 <= 31) by (Z.div_mod_to_equations; lia).
      split; [lia|]. split.
      * rewrite is_trailer_block_low by lia.
        rewrite Ht. replace (4 * (b / 4) + 3 + 1) with ((b / 4 + 1) * 4) by lia.
        rewrite Z.mod_mul by lia. reflexivity.
      * intros x Hx. rewrite is_trailer_block_low by lia.
        apply Z.eqb_neq. intros Hm.
        pose proof (Z.div_mod (x + 1) 4 ltac:(lia)) as Hx4.
        rewrite Hm in Hx4. lia.
    + rewrite get_trailer_block_high by (change (2 ^ 32) with 4294967296; lia).
      assert (0 <= b mod 16 < 16) by (apply Z.mod_pos_bound; lia).
      pose proof (Z.div_mod b 16 ltac:(lia)) as Hdm.
      assert (Ht : b + (15 - b mod 16) = 16 * (b / 16) + 15) by lia.
      assert (b / 16 <= 268435455) by (Z.div_mod_to_equations; lia).
      split; [lia|]. split.
      * rewrite is_trailer_block_high by (change (2 ^ 32) with 4294967296; lia).
        rewrite Ht. replace (16 * (b / 16) + 15 + 1) with ((b / 16 + 1) * 16) by lia.
        rewrite Z.mod_mul by lia. reflexivity.
      * intros x Hx.
        rewrite is_trailer_block_high by (change (2 ^ 32) with 4294967296; lia).
        apply Z.eqb_neq. intros Hm.
        pose proof (Z.div_mod (x + 1) 16 ltac:(lia)) as Hx16.
        rewrite Hm in Hx16. lia.
Qed.

Lemma trailer_block_layout_witness :
  0 <= 8 < 2 ^ 32 /\ is_trailer_block (get_trailer_block 8) = true.
Proof.
  split; [lia|]. apply (trailer_block_layout 8). lia.
Defined.

(** ** Running the monad *)

Lemma emitted_app (s s' : state) (evs : list event) :
  trace s' = trace s ++ evs -> emitted s s' = evs.
Proof.
  intros H. unfold emitted. rewrite H. apply drop_app_length.
Qed.

Lemma auth_cmd_run (lib : nfc_library) (mc : mifare_cmd) (b : Z) (s : state) :
  mc <> MC_READ ->
  nfc_initiator_mifare_cmd lib mc b s =
    (r_ok (respond lib (map ev_cmd (trace s)) (MifareCmd mc b (mp s))),
     set_trace (trace s ++ [event_of lib (MifareCmd mc b (mp s)) s]) s).
Proof. intros H. destruct mc; try reflexivity. congruence. Qed.

Lemma select_keep_nt_run (lib : nfc_library) (init : list Z) (s : state) :
  nfc_initiator_select_passive_target lib init false s =
    (r_ok (respond lib (map ev_cmd (trace s)) (SelectPassiveTarget init)),
     set_trace (trace s ++ [event_of lib (SelectPassiveTarget init) s]) s).
Proof.
  unfold nfc_initiator_select_passive_target, bind, call, ret. simpl.
  destruct (r_ok _); reflexivity.
Qed.

Lemma key_cmd_not_read (g : globals) :
  (if bUseKeyA g then MC_AUTH_A else MC_AUTH_B) <> MC_READ.
Proof. destruct (bUseKeyA g); discriminate. Qed.

(** ** Authentication *)

Lemma guess_keys_failure_keeps_keys (lib : nfc_library) (g : globals)
    (mc : mifare_cmd) (uiBlock : Z) (remaining key_index : nat)
    (s s' : state) :
  mc <> MC_READ ->
  guess_keys lib g mc uiBlock remaining key_index s = (false, s') ->
  mtKeys s' = mtKeys s.
Proof.
  intros Hmc. revert key_index s.
  induction remaining as [|n IH]; intros key_index s H; simpl in H.
  - run_in H. congruence.
  - bind_inv H. run_in Hm. injection Hm as _ <-.
    bind_inv H. rewrite auth_cmd_run in Hm by exact Hmc.
    injection Hm as <- <-.
    destruct (r_ok _).
    + run_in H. discriminate.
    + bind_inv H. run_in Hm. injection Hm as <- <-.
      bind_inv H. rewrite select_keep_nt_run in Hm. injection Hm as _ <-.
      apply IH in H. rewrite H. reflexivity.
Qed.

(** C10: an authentication that fails leaves the key table [mtKeys] as it
    was, in key-file mode and in guessing mode alike. *)
Theorem authenticate_failure_keeps_keys (lib : nfc_library) (g : globals)
    (uiBlock : Z) (s s' : state) :
  authenticate lib g uiBlock s = (false, s') ->
  mtKeys s' = mtKeys s.
Proof.
  unfold authenticate. intros H.
  bind_inv H. run_in Hm. injection Hm as _ <-.
  pose proof (key_cmd_not_read g) as Hmc.
  destruct (bUseKeyFile g).
  - bind_inv H. run_in Hm. injection Hm as _ <-.
    rewrite auth_cmd_run in H by exact Hmc.
    injection H as _ <-. reflexivity.
  - apply guess_keys_failure_keeps_keys in H; [|exact Hmc].
    rewrite H. reflexivity.
Qed.

Lemma authenticate_failure_keeps_keys_witness :
  fst (authenticate lib_no_auth g_guess 3 s0) = false /\
  mtKeys (snd (authenticate lib_no_auth g_guess 3 s0)) = mtKeys s0.
Proof.
  split; [vm_compute; reflexivity|].
  apply (authenticate_failure_keeps_keys lib_no_auth g_guess 3 s0).
  vm_compute. reflexivity.
Defined.

Lemma key_at_length (j : nat) : (j < num_keys)%nat -> length (key_at j) = 6%nat.
Proof.
  intros H. unfold num_keys in H. simpl in H.
  do 9 (destruct j as [|j]; [reflexivity|]). lia.
Qed.

Lemma memcpy_front_take (p src : list Z) (n : nat) :
  length (take n src) = n -> take n (memcpy p 0 src n) = take n src.
Proof.
  intros H. unfold memcpy. simpl.
  rewrite take_app_length'; [reflexivity | symmetry; exact H].
Qed.

Lemma candidate_in_mp (p : list Z) (j : nat) :
  (j < num_keys)%nat ->
  take 6 (memcpy p 0 (drop (j * 6)%nat keys) 6) = key_at j.
Proof.
  intros H. apply memcpy_front_take. apply (key_at_length j H).
Qed.

Lemma store_amb_take (t : mifare_classic_tag) (i : Z) (off : nat)
    (src : list Z) (n : nat) :
  store_amb t i off src n = store_amb t i off (take n src) n.
Proof.
  unfold store_amb. apply list_alter_ext; [|reflexivity].
  intros b _. unfold memcpy. rewrite take_take, Nat.min_id. reflexivity.
Qed.

Lemma count_cmds_cons (p : command -> bool) (c : command) (cmds : list command) :
  count_cmds p (c :: cmds) = ((if p c then 1 else 0) + count_cmds p cmds)%nat.
Proof.
  unfold count_cmds. rewrite filter_cons.
  destruct (p c); simpl.
  - destruct (decide (true = true)); [reflexivity | congruence].
  - destruct (decide (false = true)); [discriminate | reflexivity].
Qed.

Lemma guess_cmds_step (mc : mifare_cmd) (b : Z) (uid p : list Z) (j k : nat) :
  guess_cmds mc b uid p j (S (S k)) =
    MifareCmd mc b (memcpy p 0 (drop (j * 6)%nat keys) 6)
      :: SelectPassiveTarget uid
      :: guess_cmds mc b uid (memcpy p 0 (drop (j * 6)%nat keys) 6) (S j) (S k).
Proof. reflexivity. Qed.

Lemma guess_cmds_counts (mc : mifare_cmd) (b : Z) (uid p : list Z) (j k : nat) :
  mc = MC_AUTH_A \/ mc = MC_AUTH_B ->
  count_cmds is_auth (guess_cmds mc b uid p j k) = k /\
  count_cmds is_select (guess_cmds mc b uid p j k) = (k - 1)%nat.
Proof.
  intros Hmc. revert p j.
  induction k as [|k IH]; intros p j.
  - split; reflexivity.
  - destruct k as [|k].
    + simpl. rewrite !count_cmds_cons.
      destruct Hmc as [-> | ->]; split; reflexivity.
    + rewrite guess_cmds_step, !count_cmds_cons.
      destruct (IH (memcpy p 0 (drop (j * 6)%nat keys) 6) (S j)) as [Ha Hs].
      rewrite Ha, Hs.
      destruct Hmc as [-> | ->]; simpl; split; lia.
Qed.

(** The sweep stops at the first accepted candidate. *)
Lemma guess_keys_accept (lib : nfc_library) (g : globals) (mc : mifare_cmd)
    (uiBlock : Z) (k : nat) :
  mc <> MC_READ ->
  forall (remaining j : nat) (s : state),
  (1 <= k <= remaining)%nat ->
  (j + remaining <= num_keys)%nat ->
  (forall i, (i < k - 1)%nat -> rejects_key lib mc uiBlock (j + i)) ->
  accepts_key lib mc uiBlock (j + (k - 1)) ->
  exists s' evs,
    guess_keys lib g mc uiBlock remaining j s = (true, s') /\
    trace s' = trace s ++ evs /\
    map ev_cmd evs = guess_cmds mc uiBlock (nt_abtUid s) (mp s) j k /\
    mtKeys s' =
      store_amb (mtKeys s) uiBlock (if bUseKeyA g then 0 else 10)%nat
        (key_at (j + (k - 1))) 6 /\
    mtDump s' = mtDump s.
Proof.
  intros Hmc. induction k as [|k IH]; intros remaining j s Hk Hn Hrej Hacc.
  - lia.
  - destruct remaining as [|n]; [lia|].
    assert (Hj : (j < num_keys)%nat) by lia.
    simpl guess_keys.
    unfold bind at 1. unfold modify at 1.
    unfold bind at 1. rewrite auth_cmd_run by exact Hmc.
    cbn [mp set_mp trace nt_abtUid mtKeys].
    destruct k as [|k].
    + (* the first candidate tried is the accepted one *)
      rewrite Nat.sub_diag, Nat.add_0_r in Hacc.
      rewrite (Hacc _ _ (candidate_in_mp (mp s) j Hj)).
      eexists. eexists. split; [reflexivity|].
      cbn. split; [reflexivity|]. split; [reflexivity|].
      split; [|reflexivity].
      rewrite Nat.add_0_r. rewrite store_amb_take.
      rewrite (candidate_in_mp (mp s) j Hj). reflexivity.
    + (* rejected: re-select, then go on with the next candidate *)
      pose proof (Hrej 0%nat ltac:(lia)) as Hrej0.
      rewrite Nat.add_0_r in Hrej0.
      rewrite (Hrej0 _ _ (candidate_in_mp (mp s) j Hj)).
      unfold bind at 1. unfold get at 1.
      unfold bind at 1. rewrite select_keep_nt_run.
      cbn [mp set_mp set_trace trace nt_abtUid mtKeys].
      match goal with
      | |- context [guess_keys lib g mc uiBlock n (S j) ?st] =>
          destruct (IH n (S j) st) as (s' & evs & Hrun & Htr & Hcmds & Hkeys & Hdump)
      end.
      * lia.
      * lia.
      * intros i Hi. replace (S j + i)%nat with (j + S i)%nat by lia.
        apply Hrej. lia.
      * replace (S j + (S k - 1))%nat with (j + (S (S k) - 1))%nat by lia.
        exact Hacc.
      * exists s'. eexists. split; [exact Hrun|].
        split.
        { rewrite Htr. cbn [trace set_trace].
          rewrite <- !app_assoc. reflexivity. }
        split.
        { rewrite guess_cmds_step. simpl. rewrite Hcmds. reflexivity. }
        split.
        { rewrite Hkeys. cbn [mtKeys set_trace set_mp].
          replace (S j + (S k - 1))%nat with (j + (S (S k) - 1))%nat by lia.
          reflexivity. }
        rewrite Hdump. reflexivity.
Qed.

(** When every candidate is rejected the sweep tries them all. *)
Lemma guess_keys_exhaust (lib : nfc_library) (g : globals) (mc : mifare_cmd)
    (uiBlock : Z) :
  mc = MC_AUTH_A \/ mc = MC_AUTH_B ->
  forall (remaining j : nat) (s : state),
  (j + remaining <= num_keys)%nat ->
  (forall i, (i < remaining)%nat -> rejects_key lib mc uiBlock (j + i)) ->
  exists s' evs,
    guess_keys lib g mc uiBlock remaining j s = (false, s') /\
    trace s' = trace s ++ evs /\
    count_cmds is_auth (map ev_cmd evs) = remaining /\
    count_cmds is_select (map ev_cmd evs) = remaining.
Proof.
  intros Hmc.
  assert (Hnr : mc <> MC_READ) by (destruct Hmc as [-> | ->]; discriminate).
  induction remaining as [|n IH]; intros j s Hn Hrej.
  - exists s, []. simpl. rewrite app_nil_r. repeat split; reflexivity.
  - assert (Hj : (j < num_keys)%nat) by lia.
    simpl guess_keys.
    unfold bind at 1. unfold modify at 1.
    unfold bind at 1. rewrite auth_cmd_run by exact Hnr.
    cbn [mp set_mp trace nt_abtUid mtKeys].
    pose proof (Hrej 0%nat ltac:(lia)) as Hrej0.
    rewrite Nat.add_0_r in Hrej0.
    rewrite (Hrej0 _ _ (candidate_in_mp (mp s) j Hj)).
    unfold bind at 1. unfold get at 1.
    unfold bind at 1. rewrite select_keep_nt_run.
    cbn [mp set_mp set_trace trace nt_abtUid mtKeys].
    match goal with
    | |- context [guess_keys lib g mc uiBlock n (S j) ?st] =>
        destruct (IH (S j) st) as (s' & evs & Hrun & Htr & Ha & Hs)
    end.
    + lia.
    + intros i Hi. replace (S j + i)%nat with (j + S i)%nat by lia.
      apply Hrej. lia.
    + exists s'. eexists. split; [exact Hrun|].
      split.
      { rewrite Htr. cbn [trace set_trace].
        rewrite <- !app_assoc. reflexivity. }
      simpl map. rewrite !count_cmds_cons, Ha, Hs.
      destruct Hmc as [-> | ->]; simpl; split; lia.
Qed.

Lemma amb_store_amb (t : mifare_classic_tag) (i : Z) (off : nat)
    (src : list Z) (n : nat) :
  amb t i <> [] ->
  amb (store_amb t i off src n) i = memcpy (amb t i) off src n.
Proof.
  unfold amb, store_amb. rewrite list_lookup_alter_eq. intros H.
  destruct (t !! Z.to_nat i) as [b|]; simpl in *; [reflexivity | congruence].
Qed.

Lemma key_slot_stored (a : bool) (b key : list Z) :
  length b = 16%nat -> length key = 6%nat ->
  (if a then abtKeyA else abtKeyB)
    (memcpy b (if a then 0 else 10)%nat key 6) = key.
Proof.
  intros Hb Hk. unfold memcpy. destruct a.
  - unfold abtKeyA. simpl. rewrite (take_ge key) by lia.
    rewrite take_app_length' by (symmetry; exact Hk). reflexivity.
  - unfold abtKeyB. rewrite (take_ge key) by lia.
    rewrite drop_app_length' by (rewrite length_take; lia).
    rewrite take_app_length' by (symmetry; exact Hk). reflexivity.
Qed.

(** C6: in guessing mode, a tag that rejects the first [k - 1] candidates
    and accepts the [k]-th makes [authenticate] return [true] after exactly
    [k] authentication attempts and [k - 1] re-selects, one after each failed
    attempt, with the [k]-th key recorded in [mtKeys] at the block
    authenticated, in the field of the key type in use; a tag that rejects
    every candidate makes it return [false] after [num_keys] attempts. *)
Theorem authenticate_guessing (lib : nfc_library) (g : globals) (uiBlock : Z)
    (s : state) :
  bUseKeyFile g = false ->
  let mc := if bUseKeyA g then MC_AUTH_A else MC_AUTH_B in
  let uid := nt_abtUid s in
  let p0 := memcpy (mp s) 6 (drop (length uid - 4)%nat uid) 4 in
  (forall k : nat,
     (1 <= k <= num_keys)%nat ->
     (forall i, (i < k - 1)%nat -> rejects_key lib mc uiBlock i) ->
     accepts_key lib mc uiBlock (k - 1) ->
     exists s',
       authenticate lib g uiBlock s = (true, s') /\
       map ev_cmd (emitted s s') = guess_cmds mc uiBlock uid p0 0 k /\
       count_cmds is_auth (map ev_cmd (emitted s s')) = k /\
       count_cmds is_select (map ev_cmd (emitted s s')) = (k - 1)%nat /\
       mtKeys s' =
         store_amb (mtKeys s) uiBlock (if bUseKeyA g then 0 else 10)%nat
           (key_at (k - 1)) 6 /\
       (length (amb (mtKeys s) uiBlock) = 16%nat ->
        (if bUseKeyA g then abtKeyA else abtKeyB) (amb (mtKeys s') uiBlock)
          = key_at (k - 1))) /\
  ((forall i, (i < num_keys)%nat -> rejects_key lib mc uiBlock i) ->
   exists s',
     authenticate lib g uiBlock s = (false, s') /\
     count_cmds is_auth (map ev_cmd (emitted s s')) = num_keys /\
     count_cmds is_select (map ev_cmd (emitted s s')) = num_keys /\
     mtKeys s' = mtKeys s).
Proof.
  intros Hmode mc uid p0.
  assert (Hmc : mc = MC_AUTH_A \/ mc = MC_AUTH_B)
    by (subst mc; destruct (bUseKeyA g); auto).
  assert (Hnr : mc <> MC_READ) by (destruct Hmc as [-> | ->]; discriminate).
  assert (Hunfold : authenticate lib g uiBlock s =
            guess_keys lib g mc uiBlock num_keys 0 (set_mp p0 s)).
  { unfold authenticate. rewrite Hmode. reflexivity. }
  split.
  - intros k Hk Hrej Hacc.
    destruct (guess_keys_accept lib g mc uiBlock k Hnr num_keys 0%nat
                (set_mp p0 s) Hk ltac:(lia) Hrej Hacc)
      as (s' & evs & Hrun & Htr & Hcmds & Hkeys & _).
    exists s'. rewrite Hunfold.
    cbn [trace set_mp nt_abtUid mp mtKeys] in Htr, Hcmds, Hkeys.
    rewrite (emitted_app s s' evs Htr), Hcmds.
    destruct (guess_cmds_counts mc uiBlock uid p0 0 k Hmc) as [Ha Hs].
    repeat split; try assumption.
    intros Hlen. rewrite Hkeys.
    rewrite amb_store_amb by (intros E; rewrite E in Hlen; discriminate).
    apply key_slot_stored; [exact Hlen|].
    apply key_at_length. lia.
  - intros Hrej.
    destruct (guess_keys_exhaust lib g mc uiBlock Hmc num_keys 0%nat
                (set_mp p0 s) ltac:(lia) Hrej)
      as (s' & evs & Hrun & Htr & Ha & Hs).
    exists s'. rewrite Hunfold.
    cbn [trace set_mp] in Htr.
    rewrite (emitted_app s s' evs Htr).
    repeat split; try assumption.
    apply (guess_keys_failure_keeps_keys lib g mc uiBlock _ _ _ _ Hnr) in Hrun.
    exact Hrun.
Qed.

Lemma authenticate_guessing_witness :
  (exists s',
     authenticate (lib_key (key_at 2)) g_guess 3 s0 = (true, s') /\
     count_cmds is_auth (map ev_cmd (emitted s0 s')) = 3%nat /\
     count_cmds is_select (map ev_cmd (emitted s0 s')) = 2%nat /\
     abtKeyA (amb (mtKeys s') 3) = [0xa0; 0xa1; 0xa2; 0xa3; 0xa4; 0xa5]) /\
  (exists s', authenticate lib_no_auth g_guess 3 s0 = (false, s')).
Proof.
  split.
  - destruct (authenticate_guessing (lib_key (key_at 2)) g_guess 3 s0
                eq_refl) as [Hk _].
    destruct (Hk 3%nat) as (s' & Hrun & _ & Ha & Hs & _ & Hslot).
    + unfold num_keys. simpl. lia.
    + intros i Hi h p Hp. simpl.
      destruct (decide (take 6 p = key_at 2)) as [E|]; [|reflexivity].
      rewrite Hp in E.
      destruct i as [|[|i]]; [discriminate E | discriminate E | lia].
    + intros h p Hp. simpl.
      destruct (decide (take 6 p = key_at 2)) as [|N]; [reflexivity|].
      elim N. exact Hp.
    + exists s'. repeat split; try assumption.
      apply Hslot. reflexivity.
  - destruct (authenticate_guessing lib_no_auth g_guess 3 s0 eq_refl)
      as [_ Hall].
    destruct Hall as (s' & Hrun & _).
    + intros i Hi h p Hp. reflexivity.
    + exists s'. exact Hrun.
Defined.

(** ** The unlock handshake *)

Lemma set_property_inv (lib : nfc_library) (p : nfc_property) (v : bool)
    (s s1 : state) (ok : bool) :
  nfc_device_set_property_bool lib p v s = (ok, s1) ->
  exists r, ok = r_ok r /\
    s1 = set_trace (trace s ++ [Event (SetPropertyBool p v) r]) s.
Proof.
  unfold nfc_device_set_property_bool. intros H. run_in H.
  injection H as <- <-. eauto.
Qed.

Lemma transmit_bits_inv (lib : nfc_library) (tx : list Z) (n : Z)
    (s s1 : state) (ok : bool) :
  transmit_bits lib tx n s = (ok, s1) ->
  exists r, ok = r_ok r /\
    s1 = set_trace (trace s ++ [Event (TransceiveBits tx n) r]) s.
Proof.
  unfold transmit_bits. intros H. run_in H. injection H as <- <-. eauto.
Qed.

Lemma transmit_bytes_inv (lib : nfc_library) (tx : list Z) (n : Z)
    (s s1 : state) (ok : bool) :
  transmit_bytes lib tx n s = (ok, s1) ->
  exists r, ok = r_ok r /\
    s1 = set_trace (trace s ++ [Event (TransceiveBytes tx n) r]) s.
Proof.
  unfold transmit_bytes. intros H. run_in H. injection H as <- <-. eauto.
Qed.

Lemma unlock_card_magic2 (lib : nfc_library) (g : globals) (s : state) :
  magic2 g = true -> unlock_card lib g s = (false, s).
Proof. intros H. unfold unlock_card. rewrite H. reflexivity. Qed.

(** C5, the claim as stated, fails: a tag that leaves HALT unanswered (the
    transceive of the HALT frame reports an error) does not make
    [unlock_card] fail. *)
Lemma unlock_card_ignores_halt_failure :
  fst (unlock_card lib_halt_silent g_guess s0) = true /\
  exists e, e ∈ emitted s0 (snd (unlock_card lib_halt_silent g_guess s0)) /\
    is_halt (ev_cmd e) = true /\ r_ok (ev_resp e) = false.
Proof.
  split; [vm_compute; reflexivity|].
  exists (Event (TransceiveBytes [0x50; 0x00; 0x57; 0xcd] 4) answer_fail).
  split; [|split; reflexivity].
  vm_compute. do 2 apply list_elem_of_further. apply list_elem_of_here.
Qed.

(** C5, amended: on a magic2 card [unlock_card] returns [false] and makes no
    call.  Otherwise the calls it makes are a prefix of the handshake; it
    returns [true] exactly when the whole handshake was issued and every call
    but the HALT transceive succeeded, and it returns [false] exactly when
    the last call it made is a failed call other than the HALT transceive,
    whose result is ignored. *)
Theorem unlock_card_outcome (lib : nfc_library) (g : globals) (s s' : state)
    (r : bool) :
  unlock_card lib g s = (r, s') ->
  (magic2 g = true -> r = false /\ s' = s) /\
  (magic2 g = false ->
   let halt := iso14443a_crc_append lib (abtHalt s) 2 in
   exists evs,
     trace s' = trace s ++ evs /\
     map ev_cmd evs `prefix_of` unlock_cmds halt /\
     (r = true <->
        map ev_cmd evs = unlock_cmds halt /\ all_ok_but_halt evs = true) /\
     (r = false <->
        exists e, last evs = Some e /\
          is_halt (ev_cmd e) = false /\ r_ok (ev_resp e) = false)).
Proof.
  intros H. split.
  { intros Hm. rewrite unlock_card_magic2 in H by exact Hm.
    injection H as <- <-. auto. }
  intros Hm halt. unfold unlock_card in H. rewrite Hm in H.
  bind_inv H. apply set_property_inv in Hm0 as (r1 & -> & ->).
  destruct (r_ok r1) eqn:E1; simpl in H.
  1: bind_inv H; apply set_property_inv in Hm0 as (r2 & -> & ->);
     destruct (r_ok r2) eqn:E2; simpl in H.
  1: bind_inv H; run_in Hm0; injection Hm0 as _ <-;
     bind_inv H; run_in Hm0; injection Hm0 as <- <-;
     bind_inv H; apply transmit_bytes_inv in Hm0 as (r3 & _ & ->);
     bind_inv H; apply transmit_bits_inv in Hm0 as (r4 & -> & ->);
     destruct (r_ok r4) eqn:E4; simpl in H.
  1: bind_inv H; apply transmit_bytes_inv in Hm0 as (r5 & -> & ->);
     destruct (r_ok r5) eqn:E5; simpl in H.
  1: bind_inv H; apply set_property_inv in Hm0 as (r6 & -> & ->);
     destruct (r_ok r6) eqn:E6; simpl in H.
  1: bind_inv H; apply set_property_inv in Hm0 as (r7 & -> & ->);
     destruct (r_ok r7) eqn:E7; simpl in H.
  all: run_in H; injection H as <- <-.
  all: cbn [trace set_trace set_abtHalt abtHalt]; rewrite <- ?app_assoc; simpl.
  all: (eexists; split; [reflexivity|]).
  all: (split; [eexists; reflexivity|]).
  all: unfold all_ok_but_halt; simpl;
       rewrite ?E1, ?E2, ?E4, ?E5, ?E6, ?E7; simpl.
  all: split; split.
  all: try discriminate.
  all: try (intros; reflexivity).
  all: try (intros [Hc Ha]; discriminate Hc || discriminate Ha).
  all: try (intros (e & Hl & Hh & Hr); injection Hl as <-; simpl in Hr;
            congruence).
  all: try (intros _; eexists; split; [reflexivity|];
            split; [reflexivity|assumption]).
  all: try (intros _; split; [reflexivity|]; rewrite ?orb_true_r;
            reflexivity).
Qed.

Lemma unlock_card_outcome_witness :
  unlock_card lib_halt_silent g_guess s0
    = (true, snd (unlock_card lib_halt_silent g_guess s0)) /\
  (magic2 g_guess = false ->
   exists evs,
     trace (snd (unlock_card lib_halt_silent g_guess s0)) = trace s0 ++ evs /\
     all_ok_but_halt evs = true).
Proof.
  split; [vm_compute; reflexivity|]. intros Hm.
  destruct (unlock_card_outcome lib_halt_silent g_guess s0
              (snd (unlock_card lib_halt_silent g_guess s0)) true
              ltac:(vm_compute; reflexivity))
    as [_ H].
  destruct (H Hm) as (evs & Htr & _ & [Hok _] & _).
  exists evs. split; [exact Htr|]. apply Hok. reflexivity.
Defined.

(** ** What the calls of [authenticate] and [unlock_card] are *)

Lemma blocks_of_app (mc : mifare_cmd) (l1 l2 : list event) :
  blocks_of mc (l1 ++ l2) = blocks_of mc l1 ++ blocks_of mc l2.
Proof. unfold blocks_of. apply omap_app. Qed.

Lemma blocks_of_cons (mc : mifare_cmd) (e : event) (evs : list event) :
  blocks_of mc (e :: evs) =
    match mifare_block mc e with
    | Some b => b :: blocks_of mc evs
    | None => blocks_of mc evs
    end.
Proof. reflexivity. Qed.

Lemma blocks_of_no_io (mc : mifare_cmd) (evs : list event) :
  mc = MC_READ \/ mc = MC_WRITE ->
  Forall (fun e => block_io e = false) evs ->
  blocks_of mc evs = [].
Proof.
  intros Hmc H. induction H as [|e evs He _ IH]; [reflexivity|].
  rewrite blocks_of_cons, IH.
  unfold block_io, is_cmd in He. apply orb_false_elim in He as [Hr Hw].
  destruct Hmc as [-> | ->].
  - destruct (mifare_block MC_READ e); [discriminate | reflexivity].
  - destruct (mifare_block MC_WRITE e); [discriminate | reflexivity].
Qed.

Lemma guess_keys_trace (lib : nfc_library) (g : globals) (mc : mifare_cmd)
    (uiBlock : Z) (remaining key_index : nat) (s s' : state) (r : bool) :
  mc = MC_AUTH_A \/ mc = MC_AUTH_B ->
  guess_keys lib g mc uiBlock remaining key_index s = (r, s') ->
  exists evs, trace s' = trace s ++ evs /\
    Forall (fun e => block_io e = false) evs /\
    mtDump s' = mtDump s.
Proof.
  intros Hmc.
  assert (Hnr : mc <> MC_READ) by (destruct Hmc as [-> | ->]; discriminate).
  revert key_index s.
  induction remaining as [|n IH]; intros key_index s H; simpl in H.
  - run_in H. injection H as _ <-. exists []. rewrite app_nil_r. auto.
  - bind_inv H. run_in Hm. injection Hm as _ <-.
    bind_inv H. rewrite auth_cmd_run in Hm by exact Hnr.
    injection Hm as <- <-.
    assert (Hio : block_io
              (event_of lib
                 (MifareCmd mc uiBlock
                    (mp (set_mp (memcpy (mp s) 0 (drop (key_index * 6)%nat keys) 6) s)))
                 (set_mp (memcpy (mp s) 0 (drop (key_index * 6)%nat keys) 6) s))
              = false)
      by (destruct Hmc as [-> | ->]; reflexivity).
    destruct (r_ok _).
    + run_in H. injection H as _ <-. eexists.
      split; [reflexivity|]. split; [|reflexivity].
      constructor; [exact Hio | constructor].
    + bind_inv H. run_in Hm. injection Hm as <- <-.
      bind_inv H. rewrite select_keep_nt_run in Hm. injection Hm as _ <-.
      apply IH in H. destruct H as (evs & Htr & Hall & Hd).
      eexists. split.
      { rewrite Htr. cbn [trace set_trace]. rewrite <- !app_assoc. reflexivity. }
      split; [|rewrite Hd; reflexivity].
      simpl. constructor; [exact Hio|]. constructor; [reflexivity | exact Hall].
Qed.

Lemma authenticate_trace (lib : nfc_library) (g : globals) (uiBlock : Z)
    (s s' : state) (r : bool) :
  authenticate lib g uiBlock s = (r, s') ->
  exists evs, trace s' = trace s ++ evs /\
    Forall (fun e => block_io e = false) evs /\
    mtDump s' = mtDump s.
Proof.
  unfold authenticate. intros H.
  bind_inv H. run_in Hm. injection Hm as _ <-.
  assert (Hmc : (if bUseKeyA g then MC_AUTH_A else MC_AUTH_B) = MC_AUTH_A \/
                (if bUseKeyA g then MC_AUTH_A else MC_AUTH_B) = MC_AUTH_B)
    by (destruct (bUseKeyA g); auto).
  destruct (bUseKeyFile g).
  - bind_inv H. run_in Hm. injection Hm as _ <-.
    rewrite auth_cmd_run in H by apply key_cmd_not_read.
    injection H as _ <-. eexists. split; [reflexivity|].
    split; [|reflexivity].
    constructor; [|constructor].
    destruct (bUseKeyA g); reflexivity.
  - apply (guess_keys_trace lib g _ _ _ _ _ _ _ Hmc) in H.
    destruct H as (evs & Htr & Hall & Hd).
    exists evs. auto.
Qed.

Lemma unlock_card_trace (lib : nfc_library) (g : globals) (s s' : state)
    (r : bool) :
  unlock_card lib g s = (r, s') ->
  exists evs, trace s' = trace s ++ evs /\
    Forall (fun e => block_io e = false) evs /\
    mtDump s' = mtDump s /\ mp s' = mp s /\ mtKeys s' = mtKeys s.
Proof.
  intros H. destruct (magic2 g) eqn:Hm.
  { rewrite unlock_card_magic2 in H by exact Hm. injection H as _ <-.
    exists []. rewrite app_nil_r. auto. }
  unfold unlock_card in H. rewrite Hm in H.
  bind_inv H. apply set_property_inv in Hm0 as (r1 & -> & ->).
  destruct (r_ok r1); simpl in H.
  1: bind_inv H; apply set_property_inv in Hm0 as (r2 & -> & ->);
     destruct (r_ok r2); simpl in H.
  1: bind_inv H; run_in Hm0; injection Hm0 as _ <-;
     bind_inv H; run_in Hm0; injection Hm0 as <- <-;
     bind_inv H; apply transmit_bytes_inv in Hm0 as (r3 & _ & ->);
     bind_inv H; apply transmit_bits_inv in Hm0 as (r4 & -> & ->);
     destruct (r_ok r4); simpl in H.
  1: bind_inv H; apply transmit_bytes_inv in Hm0 as (r5 & -> & ->);
     destruct (r_ok r5); simpl in H.
  1: bind_inv H; apply set_property_inv in Hm0 as (r6 & -> & ->);
     destruct (r_ok r6); simpl in H.
  1: bind_inv H; apply set_property_inv in Hm0 as (r7 & -> & ->);
     destruct (r_ok r7); simpl in H.
  all: run_in H; injection H as _ <-.
  all: cbn [trace set_trace set_abtHalt abtHalt mtDump mp mtKeys];
       rewrite <- ?app_assoc; simpl.
  all: (eexists; split; [reflexivity|]).
  all: (split; [|repeat split; reflexivity]).
  all: repeat constructor.
Qed.

(** ** Block commands *)

Lemma read_cmd_run (lib : nfc_library) (b : Z) (s s' : state) (r : bool) :
  nfc_initiator_mifare_cmd lib MC_READ b s = (r, s') ->
  let e := event_of lib (MifareCmd MC_READ b (mp s)) s in
  trace s' = trace s ++ [e] /\ r = succeeded e /\
  mtDump s' = mtDump s /\ mtKeys s' = mtKeys s.
Proof.
  intros H. unfold nfc_initiator_mifare_cmd in H. run_in H.
  unfold succeeded, event_of. simpl.
  destruct (r_ok _ && _); run_in H; injection H as <- <-; auto.
Qed.

Lemma write_cmd_run (lib : nfc_library) (b : Z) (s : state) :
  let e := event_of lib (MifareCmd MC_WRITE b (mp s)) s in
  nfc_initiator_mifare_cmd lib MC_WRITE b s =
    (succeeded e, set_trace (trace s ++ [e]) s).
Proof. reflexivity. Qed.

Lemma last_cons_nonempty {A : Type} (x y : A) (l : list A) :
  last l = Some y -> last (x :: l) = Some y.
Proof. destruct l; [discriminate | auto]. Qed.

(** ** Reading a sector *)

(** A block that is not a trailer is read unless an earlier read failed. *)
Lemma read_block_data (lib : nfc_library) (g : globals) (ru : bool) (b : Z)
    (bf : bool) (s s' : state) (it : iteration) :
  is_trailer_block b = false ->
  read_block lib g ru b bf s = (it, s') ->
  (bf = true /\ it = EndOfBody true /\ s' = s) \/
  (bf = false /\
   let e := event_of lib (MifareCmd MC_READ b (mp s)) s in
   trace s' = trace s ++ [e] /\ it = EndOfBody (negb (succeeded e))).
Proof.
  intros Ht H. unfold read_block in H. rewrite Ht in H.
  destruct bf; simpl in H.
  - left. run_in H. injection H as <- <-. auto.
  - right. split; [reflexivity|]. cbv zeta. bind_inv H.
    apply read_cmd_run in Hm. destruct Hm as (Htr & -> & _).
    destruct (succeeded _); run_in H; injection H as <- <-; simpl; auto.
Qed.

(** The trailer that opens a sector: authenticate unless unlocked, then
    read. *)
Lemma read_block_trailer (lib : nfc_library) (g : globals) (ru : bool) (b : Z)
    (s s' : state) (it : iteration) :
  is_trailer_block b = true ->
  read_block lib g ru b false s = (it, s') ->
  exists ok s1,
    (if ru then (true, s) else authenticate lib g b s) = (ok, s1) /\
    ((ok = false /\ it = ReturnFalse /\ s' = s1) \/
     (ok = true /\
      let e := event_of lib (MifareCmd MC_READ b (mp s1)) s1 in
      trace s' = trace s1 ++ [e] /\ it = EndOfBody (negb (succeeded e)))).
Proof.
  intros Ht H. unfold read_block in H. rewrite Ht in H.
  bind_inv_as H sel ss Hsel. run_in Hsel. injection Hsel as <- <-. simpl in H.
  bind_inv_as H ok sa Hauth. exists ok, sa. split.
  { destruct ru; [run_in Hauth|]; exact Hauth. }
  destruct ok; simpl in H.
  - right. split; [reflexivity|]. cbv zeta. bind_inv_as H rd sr Hrd.
    apply read_cmd_run in Hrd. destruct Hrd as (Htr & -> & _).
    destruct (succeeded _); run_in H; injection H as <- <-;
      [destruct ru|]; simpl; rewrite ?Htr; auto.
  - left. run_in H. injection H as <- <-. auto.
Qed.

Lemma is_cmd_read_event (lib : nfc_library) (b : Z) (p : list Z) (s : state) :
  is_cmd MC_READ (event_of lib (MifareCmd MC_READ b p) s) = true /\
  mifare_block MC_READ (event_of lib (MifareCmd MC_READ b p) s) = Some b.
Proof. split; reflexivity. Qed.

(** The blocks after the trailer: read in order until one fails. *)
Lemma read_blocks_data (lib : nfc_library) (g : globals) (ru : bool) :
  forall (blocks : list Z) (bf : bool) (s s' : state) (r : bool),
  Forall (fun b => is_trailer_block b = false) blocks ->
  read_blocks lib g ru blocks bf s = (r, s') ->
  exists evs,
    trace s' = trace s ++ evs /\
    Forall (fun e => is_cmd MC_READ e = true) evs /\
    blocks_of MC_READ evs `prefix_of` blocks /\
    (bf = true -> evs = []) /\
    (bTolerateFailures g = false -> bf = false ->
     forall e, e ∈ evs -> succeeded e = false ->
       r = false /\ last evs = Some e) /\
    (bf = false -> forallb succeeded evs = true ->
     r = true /\ blocks_of MC_READ evs = blocks).
Proof.
  induction blocks as [|b rest IH]; intros bf s s' r Hall H.
  - run_in H. injection H as <- <-. exists []. rewrite app_nil_r.
    split; [reflexivity|]. split; [constructor|]. split; [apply prefix_nil|].
    split; [reflexivity|]. split.
    + intros _ _ e He. inversion He.
    + intros _ _. split; reflexivity.
  - inversion Hall as [|? ? Hb Hrest]; subst.
    simpl in H. bind_inv H.
    apply read_block_data in Hm; [|exact Hb].
    destruct Hm as [(-> & -> & ->) | (-> & Htr & ->)].
    + (* an earlier read failed: nothing is issued *)
      destruct (bTolerateFailures g) eqn:Htol; simpl in H.
      * apply IH in H; [|exact Hrest].
        destruct H as (evs & Htr & Hrd & Hpre & Hnil & _ & _).
        rewrite (Hnil eq_refl) in *. exists [].
        repeat split; auto; try discriminate.
        apply prefix_nil.
      * run_in H. injection H as <- <-. exists []. rewrite app_nil_r.
        repeat split; auto; try discriminate.
        apply prefix_nil.
    + set (e := event_of lib (MifareCmd MC_READ b (mp s)) s) in *.
      destruct (succeeded e) eqn:Hs; simpl in H.
      * (* the read succeeded: go on *)
        rewrite andb_false_r in H.
        apply IH in H; [|exact Hrest].
        destruct H as (evs & Htr' & Hrd & Hpre & _ & Hstrict & Hfull).
        exists (e :: evs). split.
        { rewrite Htr', Htr, <- app_assoc. reflexivity. }
        split; [constructor; [reflexivity | exact Hrd]|].
        split.
        { rewrite blocks_of_cons.
          change (mifare_block MC_READ e) with (Some b).
          apply prefix_cons; exact Hpre. }
        split; [discriminate|].
        split.
        { intros Htol _ e0 He0 Hf.
          apply elem_of_cons in He0 as [-> | He0]; [congruence|].
          destruct (Hstrict Htol eq_refl e0 He0 Hf) as [Hr Hl].
          split; [exact Hr | apply last_cons_nonempty; exact Hl]. }
        intros _ Hok. simpl in Hok. rewrite Hs in Hok. simpl in Hok.
        destruct (Hfull eq_refl Hok) as [Hr Hb'].
        split; [exact Hr|]. rewrite blocks_of_cons.
        change (mifare_block MC_READ e) with (Some b). rewrite Hb'.
        reflexivity.
      * (* the read failed: the rest is skipped, or the sector given up *)
        assert (Hone : exists evs, trace s' = trace s ++ evs /\ evs = [e] /\
                  (bTolerateFailures g = false -> r = false)).
        { destruct (bTolerateFailures g) eqn:Htol; simpl in H.
          - apply IH in H; [|exact Hrest].
            destruct H as (evs & Htr' & _ & _ & Hnil & _).
            rewrite (Hnil eq_refl), app_nil_r in Htr'.
            exists [e]. rewrite Htr', Htr. repeat split; auto. discriminate.
          - run_in H. injection H as <- <-. exists [e]. auto. }
        destruct Hone as (evs & Htr' & -> & Hr).
        exists [e]. split; [exact Htr'|].
        split; [constructor; [reflexivity | constructor]|].
        split.
        { rewrite blocks_of_cons.
          change (mifare_block MC_READ e) with (Some b).
          apply prefix_cons, prefix_nil. }
        split; [discriminate|].
        split.
        { intros Htol _ e0 He0 _. apply list_elem_of_singleton in He0 as ->.
          split; [apply Hr; exact Htol | reflexivity]. }
        intros _ Hok. simpl in Hok. rewrite Hs in Hok. discriminate.
Qed.

Lemma sector_blocks_eq (iSector : Z) :
  sector_blocks iSector =
    [4 * iSector; 4 * iSector + 1; 4 * iSector + 2; 4 * iSector + 3].
Proof.
  unfold sector_blocks, SECTOR_SIZE.
  replace ((iSector + 1) * 4 - 1 - ((iSector + 1) * 4 - 1 - 4 + 1) + 1)
    with 4 by lia.
  replace ((iSector + 1) * 4 - 1 - 4 + 1) with (4 * iSector) by lia.
  unfold seqZ. simpl. 
  change (Z.of_nat 0) with 0. change (Z.of_nat 1) with 1.
  change (Z.of_nat 2) with 2. change (Z.of_nat 3) with 3.
  rewrite !(Z.add_comm _ (4 * iSector)), Z.add_0_r. reflexivity.
Qed.

Lemma not_trailer_in_sector (iSector k : Z) :
  0 <= k < 3 -> is_trailer_block (4 * iSector + k) = false.
Proof.
  intros Hk. unfold is_trailer_block, wrap32.
  change (2 ^ 32) with 4294967296.
  destruct (4 * iSector + k <? 128); apply Z.eqb_neq; intros H;
    Z.div_mod_to_equations; lia.
Qed.

Lemma not_first_in_sector (iSector k : Z) :
  0 < k <= 3 -> is_first_block (4 * iSector + k) = false.
Proof.
  intros Hk. unfold is_first_block.
  destruct (4 * iSector + k <? 128); apply Z.eqb_neq; intros H;
    Z.div_mod_to_equations; lia.
Qed.

Lemma sector_tail_not_trailer (iSector : Z) :
  Forall (fun b => is_trailer_block b = false)
    [4 * iSector + 2; 4 * iSector + 1; 4 * iSector].
Proof.
  repeat constructor.
  - apply not_trailer_in_sector. lia.
  - apply not_trailer_in_sector. lia.
  - replace (4 * iSector) with (4 * iSector + 0) by lia.
    apply not_trailer_in_sector. lia.
Qed.

(** The loop after its first block [b] was read with event [e]. *)
Lemma read_blocks_after_head (lib : nfc_library) (g : globals) (ru : bool)
    (b : Z) (rest : list Z) (e : event) (s0 sh s' : state) (r : bool) :
  Forall (fun b => is_trailer_block b = false) rest ->
  trace sh = trace s0 ++ [e] ->
  mifare_block MC_READ e = Some b ->
  (if negb (bTolerateFailures g) && negb (succeeded e) then ret false
   else read_blocks lib g ru rest (negb (succeeded e))) sh = (r, s') ->
  exists evs, trace s' = trace s0 ++ evs /\ read_run g (b :: rest) r evs.
Proof.
  intros Hrest Htr Hb H.
  assert (Hcmd : is_cmd MC_READ e = true) by (unfold is_cmd; rewrite Hb; auto).
  destruct (succeeded e) eqn:Hs; simpl in H.
  - rewrite andb_false_r in H.
    apply read_blocks_data in H; [|exact Hrest].
    destruct H as (evs & Htr' & Hrd & Hpre & _ & Hstrict & Hfull).
    exists (e :: evs). split.
    { rewrite Htr', Htr, <- app_assoc. reflexivity. }
    split; [constructor; assumption|].
    split.
    { rewrite blocks_of_cons, Hb. apply prefix_cons. exact Hpre. }
    split.
    + intros Htol e0 He0 Hf.
      apply elem_of_cons in He0 as [-> | He0]; [congruence|].
      destruct (Hstrict Htol eq_refl e0 He0 Hf) as [Hr Hl].
      split; [exact Hr | apply last_cons_nonempty; exact Hl].
    + intros Hok. simpl in Hok. rewrite Hs in Hok. simpl in Hok.
      destruct (Hfull eq_refl Hok) as [Hr Hb'].
      split; [exact Hr|]. rewrite blocks_of_cons, Hb, Hb'.
      reflexivity.
  - assert (Hone : trace s' = trace s0 ++ [e] /\
                   (bTolerateFailures g = false -> r = false)).
    { rewrite andb_true_r in H.
      destruct (bTolerateFailures g) eqn:Htol; simpl in H.
      - apply read_blocks_data in H; [|exact Hrest].
        destruct H as (evs & Htr' & _ & _ & Hnil & _).
        rewrite (Hnil eq_refl), app_nil_r in Htr'.
        rewrite Htr', Htr. split; [reflexivity | discriminate].
      - run_in H. injection H as <- <-. auto. }
    destruct Hone as [Htr' Hr].
    exists [e]. split; [exact Htr'|].
    split; [constructor; [exact Hcmd | constructor]|].
    split.
    { rewrite blocks_of_cons, Hb. apply prefix_cons, prefix_nil. }
    split.
    + intros Htol e0 He0 _. apply list_elem_of_singleton in He0 as ->.
      split; [apply Hr; exact Htol | reflexivity].
    + intros Hok. simpl in Hok. rewrite Hs in Hok. discriminate.
Qed.

(** The shape of every run of [read_sector]: the unlock handshake when asked
    for; then, when the sector's last block is a trailer and the card is not
    unlocked, one call of [authenticate] on that block; then nothing but
    block reads, from the last block of the sector downwards. *)
Lemma read_sector_shape (lib : nfc_library) (g : globals) (iSector : Z)
    (ru : bool) (s s' : state) (r : bool) :
  read_sector lib g iSector ru s = (r, s') ->
  let t := 4 * iSector + 3 in
  exists u s1,
    (if ru then unlock_card lib g s else (true, s)) = (u, s1) /\
    ((u = false /\ r = false /\ s' = s1) \/
     (u = true /\
      exists ok s2,
        (if is_trailer_block t && negb ru then authenticate lib g t s1
         else (true, s1)) = (ok, s2) /\
        ((ok = false /\ r = false /\ s' = s2) \/
         (ok = true /\
          exists evs, trace s' = trace s2 ++ evs /\
            read_run g [t; t - 1; t - 2; t - 3] r evs)))).
Proof.
  intros H t. unfold read_sector in H. bind_inv_as H u su Hu.
  exists u, su. split.
  { destruct ru; [|run_in Hu]; exact Hu. }
  destruct u; simpl in H.
  2:{ left. run_in H. injection H as <- <-. auto. }
  right. split; [reflexivity|].
  rewrite sector_blocks_eq in H.
  change (reverse [4 * iSector; 4 * iSector + 1; 4 * iSector + 2; 4 * iSector + 3])
    with [4 * iSector + 3; 4 * iSector + 2; 4 * iSector + 1; 4 * iSector] in H.
  replace (t - 1) with (4 * iSector + 2) by (subst t; lia).
  replace (t - 2) with (4 * iSector + 1) by (subst t; lia).
  replace (t - 3) with (4 * iSector) by (subst t; lia).
  fold t in H |- *.
  pose proof (sector_tail_not_trailer iSector) as Htail.
  destruct (is_trailer_block t) eqn:Ht.
  - simpl in H. bind_inv_as H it sh Hhead.
    apply read_block_trailer in Hhead; [|exact Ht].
    destruct Hhead as (ok & s2 & Hauth & Hcase).
    exists ok, s2. split.
    { destruct ru; simpl; exact Hauth. }
    destruct Hcase as [(-> & -> & ->) | (-> & Htr & ->)].
    + left. run_in H. injection H as <- <-. auto.
    + right. split; [reflexivity|].
      eapply read_blocks_after_head; [exact Htail | exact Htr | reflexivity|].
      exact H.
  - exists true, su. split; [reflexivity|].
    right. split; [reflexivity|].
    apply read_blocks_data in H.
    2:{ constructor; [exact Ht | exact Htail]. }
    destruct H as (evs & Htr & Hrd & Hpre & _ & Hstrict & Hfull).
    exists evs. split; [exact Htr|].
    split; [exact Hrd|]. split; [exact Hpre|].
    split; [intros Htol; apply Hstrict; auto | apply Hfull; reflexivity].
Qed.

Lemma no_io_not_block_cmd (evs : list event) (e : event) (mc : mifare_cmd)
    (b : Z) (p : list Z) :
  Forall (fun e => block_io e = false) evs ->
  e ∈ evs -> ev_cmd e = MifareCmd mc b p ->
  mc = MC_READ \/ mc = MC_WRITE -> False.
Proof.
  intros Hall He Hc Hmc. rewrite Forall_forall in Hall.
  specialize (Hall e He). unfold block_io, is_cmd, mifare_block in Hall.
  rewrite Hc in Hall. destruct Hmc as [-> | ->]; simpl in Hall; discriminate.
Qed.

Lemma last_app_nonempty {A : Type} (l1 l2 : list A) (x : A) :
  last l2 = Some x -> last (l1 ++ l2) = Some x.
Proof.
  intros H. destruct l2 as [|y l2] using rev_ind; [discriminate|].
  rewrite last_snoc in H. rewrite app_assoc, last_snoc. exact H.
Qed.

Lemma last_inv {A : Type} (l : list A) (x : A) :
  last l = Some x -> exists pre, l = pre ++ [x].
Proof.
  destruct l as [|y l _] using rev_ind; [discriminate|].
  rewrite last_snoc. intros [= ->]. eauto.
Qed.

(** In a run that stops on block [b] of a descending sector, no block below
    [b] was reached. *)
Lemma descending_prefix_above (t b : Z) (l : list Z) :
  (l ++ [b]) `prefix_of` [t; t - 1; t - 2; t - 3] ->
  forall b', b' ∈ l ++ [b] -> b <= b'.
Proof.
  intros [k Hk] b' Hb'.
  destruct l as [|x1 [|x2 [|x3 [|x4 [|x5 l]]]]]; simpl in *;
    injection Hk as Hk; subst;
    repeat match goal with
    | H : _ :: _ = _ :: _ |- _ => injection H as H; subst
    | H : [] = _ :: _ |- _ => discriminate H
    | H : _ :: _ = [] |- _ => discriminate H
    | H : _ ++ _ :: _ = [] |- _ => apply app_cons_not_nil in H || (symmetry in H; apply app_cons_not_nil in H); contradiction
    end;
    repeat match goal with
    | H : _ ∈ _ :: _ |- _ => apply elem_of_cons in H as [-> | H]
    | H : _ ∈ [] |- _ => inversion H
    end; try lia.
  all: destruct l; discriminate.
Qed.

(** C7: with failure tolerance off, a block read that fails is the last call
    [read_sector] makes: it returns [false], and no read is issued for any
    lower block of the sector. *)
Theorem read_sector_failure_propagation (lib : nfc_library) (g : globals)
    (iSector : Z) (ru : bool) (s s' : state) (r : bool) (e : event) (b : Z)
    (p : list Z) :
  bTolerateFailures g = false ->
  read_sector lib g iSector ru s = (r, s') ->
  e ∈ emitted s s' ->
  ev_cmd e = MifareCmd MC_READ b p ->
  succeeded e = false ->
  r = false /\
  last (emitted s s') = Some e /\
  forall b', b' < b -> b' ∉ blocks_of MC_READ (emitted s s').
Proof.
  intros Htol H He Hc Hf.
  assert (Hrd : MC_READ = MC_READ \/ MC_READ = MC_WRITE) by auto.
  apply read_sector_shape in H.
  destruct H as (u & s1 & Hu & Hcase).
  assert (Hu' : exists evu, trace s1 = trace s ++ evu /\
                  Forall (fun e => block_io e = false) evu).
  { destruct ru.
    - apply unlock_card_trace in Hu. destruct Hu as (evu & H1 & H2 & _). eauto.
    - injection Hu as _ <-. exists []. rewrite app_nil_r. auto. }
  destruct Hu' as (evu & Htru & Hiou).
  destruct Hcase as [(-> & -> & ->) | (-> & ok & s2 & Ha & Hcase)].
  { rewrite (emitted_app _ _ _ Htru) in He.
    destruct (no_io_not_block_cmd _ _ _ _ _ Hiou He Hc Hrd). }
  assert (Ha' : exists eva, trace s2 = trace s1 ++ eva /\
                  Forall (fun e => block_io e = false) eva).
  { destruct (is_trailer_block (4 * iSector + 3) && negb ru).
    - apply authenticate_trace in Ha. destruct Ha as (eva & H1 & H2 & _). eauto.
    - injection Ha as _ <-. exists []. rewrite app_nil_r. auto. }
  destruct Ha' as (eva & Htra & Hioa).
  destruct Hcase as [(-> & -> & ->) | (-> & evs & Htr & Hrun)].
  { rewrite Htru, <- app_assoc in Htra.
    rewrite (emitted_app _ _ _ Htra) in He.
    apply elem_of_app in He as [He | He].
    - destruct (no_io_not_block_cmd _ _ _ _ _ Hiou He Hc Hrd).
    - destruct (no_io_not_block_cmd _ _ _ _ _ Hioa He Hc Hrd). }
  destruct Hrun as (_ & Hpre & Hstrict & _).
  rewrite Htra, Htru, <- !app_assoc in Htr.
  rewrite (emitted_app _ _ _ Htr) in *.
  assert (Hin : e ∈ evs).
  { apply elem_of_app in He as [He | He];
      [destruct (no_io_not_block_cmd _ _ _ _ _ Hiou He Hc Hrd)|].
    apply elem_of_app in He as [He | He];
      [destruct (no_io_not_block_cmd _ _ _ _ _ Hioa He Hc Hrd)|].
    exact He. }
  destruct (Hstrict Htol e Hin Hf) as [-> Hlast].
  split; [reflexivity|]. split.
  { rewrite app_assoc. apply last_app_nonempty. exact Hlast. }
  intros b' Hlt Hb'.
  rewrite !blocks_of_app in Hb'.
  rewrite (blocks_of_no_io MC_READ evu Hrd Hiou) in Hb'.
  rewrite (blocks_of_no_io MC_READ eva Hrd Hioa) in Hb'.
  simpl in Hb'.
  apply last_inv in Hlast as [pre ->].
  rewrite blocks_of_app in Hpre, Hb'.
  assert (Hbe : blocks_of MC_READ [e] = [b]).
  { unfold blocks_of, mifare_block. simpl. rewrite Hc. reflexivity. }
  rewrite Hbe in Hpre, Hb'.
  pose proof (descending_prefix_above _ _ _ Hpre b' Hb'). lia.
Qed.

Lemma read_sector_failure_propagation_witness :
  let run := read_sector (lib_reject MC_READ 2) g_strict 0 false s0 in
  fst run = false /\ blocks_of MC_READ (emitted s0 (snd run)) = [3; 2] /\
  forall b', b' < 2 -> b' ∉ blocks_of MC_READ (emitted s0 (snd run)).
Proof.
  set (run := read_sector (lib_reject MC_READ 2) g_strict 0 false s0).
  set (e := Event (MifareCmd MC_READ 2 (replicate 16 0xAA)) answer_fail).
  destruct (read_sector_failure_propagation (lib_reject MC_READ 2) g_strict 0
              false s0 (snd run) (fst run) e 2 (replicate 16 0xAA))
    as (Hr & _ & Hlow).
  - reflexivity.
  - reflexivity.
  - vm_compute. do 2 apply list_elem_of_further. apply list_elem_of_here.
  - reflexivity.
  - reflexivity.
  - split; [exact Hr|]. split; [reflexivity | exact Hlow].
Defined.

(** C8: [read_sector] on sector 0 visits the blocks 3, 2, 1, 0 in that
    order.  After the unlock handshake (unlocked mode only) it calls
    [authenticate] once, on block 3 (locked mode only), and every call after
    that is a block read; the blocks read are 3, 2, 1, 0 in that order, cut
    short where the run stops, and all four when every read succeeds. *)
Theorem read_sector_zero_order (lib : nfc_library) (g : globals) (ru : bool)
    (s s' : state) (r : bool) :
  read_sector lib g 0 ru s = (r, s') ->
  reverse (sector_blocks 0) = [3; 2; 1; 0] /\
  blocks_of MC_READ (emitted s s') `prefix_of` [3; 2; 1; 0] /\
  exists u s1,
    (if ru then unlock_card lib g s else (true, s)) = (u, s1) /\
    ((u = false /\ r = false /\ s' = s1) \/
     (u = true /\
      exists ok s2,
        (if ru then (true, s1) else authenticate lib g 3 s1) = (ok, s2) /\
        ((ok = false /\ r = false /\ s' = s2) \/
         (ok = true /\
          exists evs,
            trace s' = trace s2 ++ evs /\
            Forall (fun e => is_cmd MC_READ e = true) evs /\
            blocks_of MC_READ evs `prefix_of` [3; 2; 1; 0] /\
            (forallb succeeded evs = true ->
             r = true /\ blocks_of MC_READ evs = [3; 2; 1; 0]))))).
Proof.
  intros H. split; [reflexivity|].
  assert (Hrd : MC_READ = MC_READ \/ MC_READ = MC_WRITE) by auto.
  apply read_sector_shape in H. simpl in H.
  destruct H as (u & s1 & Hu & Hcase).
  assert (Hu' : exists evu, trace s1 = trace s ++ evu /\
                  Forall (fun e => block_io e = false) evu).
  { destruct ru.
    - pose proof Hu as Hu2.
      apply unlock_card_trace in Hu2. destruct Hu2 as (evu & H1 & H2 & _). eauto.
    - injection Hu as _ <-. exists []. rewrite app_nil_r. auto. }
  destruct Hu' as (evu & Htru & Hiou).
  assert (Hauth : forall ok s2,
            (if is_trailer_block 3 && negb ru then authenticate lib g 3 s1
             else (true, s1)) = (ok, s2) ->
            (if ru then (true, s1) else authenticate lib g 3 s1) = (ok, s2)).
  { intros ok s2 Ha. destruct ru; exact Ha. }
  assert (Ha' : forall ok s2,
            (if ru then (true, s1) else authenticate lib g 3 s1) = (ok, s2) ->
            exists eva, trace s2 = trace s1 ++ eva /\
              Forall (fun e => block_io e = false) eva).
  { intros ok s2 Ha. destruct ru.
    - injection Ha as _ <-. exists []. rewrite app_nil_r. auto.
    - apply authenticate_trace in Ha. destruct Ha as (eva & H1 & H2 & _). eauto. }
  split.
  - destruct Hcase as [(-> & -> & ->) | (-> & ok & s2 & Ha & Hcase)].
    { rewrite (emitted_app _ _ _ Htru).
      rewrite (blocks_of_no_io MC_READ evu Hrd Hiou). apply prefix_nil. }
    apply Hauth in Ha. destruct (Ha' _ _ Ha) as (eva & Htra & Hioa).
    rewrite Htru, <- app_assoc in Htra.
    destruct Hcase as [(-> & -> & ->) | (-> & evs & Htr & Hrun)].
    { rewrite (emitted_app _ _ _ Htra), blocks_of_app.
      rewrite (blocks_of_no_io MC_READ evu Hrd Hiou).
      rewrite (blocks_of_no_io MC_READ eva Hrd Hioa). apply prefix_nil. }
    rewrite Htra, <- !app_assoc in Htr.
    rewrite (emitted_app _ _ _ Htr), !blocks_of_app.
    rewrite (blocks_of_no_io MC_READ evu Hrd Hiou).
    rewrite (blocks_of_no_io MC_READ eva Hrd Hioa). simpl.
    destruct Hrun as (_ & Hpre & _). exact Hpre.
  - exists u, s1. split; [exact Hu|].
    destruct Hcase as [Hcase | (-> & ok & s2 & Ha & Hcase)]; [left; exact Hcase|].
    right. split; [reflexivity|].
    exists ok, s2. split; [apply Hauth; exact Ha|].
    destruct Hcase as [Hcase | (-> & evs & Htr & Hrd' & Hpre & _ & Hfull)];
      [left; exact Hcase|].
    right. split; [reflexivity|].
    exists evs. auto.
Qed.

Lemma read_sector_zero_order_witness :
  let run := read_sector lib_ok g_keyfile 0 false s0 in
  fst run = true /\
  blocks_of MC_READ (emitted s0 (snd run)) = [3; 2; 1; 0] /\
  blocks_of MC_READ (emitted s0 (snd run)) `prefix_of` [3; 2; 1; 0] /\
  count_cmds is_auth (map ev_cmd (emitted s0 (snd run))) = 1%nat.
Proof.
  set (run := read_sector lib_ok g_keyfile 0 false s0).
  destruct (read_sector_zero_order lib_ok g_keyfile false s0 (snd run)
              (fst run) eq_refl) as (_ & Hpre & _).
  split; [reflexivity|]. split; [reflexivity|].
  split; [exact Hpre | reflexivity].
Defined.

(** ** Writing a sector *)

Lemma is_first_block_0_inv (b : Z) : is_first_block b = false -> (b =? 0) = false.
Proof.
  intros H. apply Z.eqb_neq. intros ->. discriminate H.
Qed.

(** A block that does not open a group: a trailer is always written, a data
    block only when no earlier write failed. *)
Lemma write_block_rest (lib : nfc_library) (g : globals) (wbz : bool) (b : Z)
    (bf : bool) (s s' : state) (it : iteration) :
  is_first_block b = false ->
  write_block lib g wbz b bf s = (it, s') ->
  (is_trailer_block b = false /\ bf = true /\
   it = EndOfBody true /\ s' = s) \/
  (exists e, (is_trailer_block b = true \/ bf = false) /\
     trace s' = trace s ++ [e] /\
     mifare_block MC_WRITE e = Some b /\
     mtKeys s' = mtKeys s /\ mtDump s' = mtDump s /\
     it = EndOfBody (if succeeded e then bf else true)).
Proof.
  intros Hf H. unfold write_block in H. rewrite Hf in H.
  rewrite (is_first_block_0_inv b Hf) in H. simpl in H.
  bind_inv_as H en se Hen. run_in Hen. injection Hen as <- <-.
  destruct (is_trailer_block b) eqn:Ht.
  - right. bind_inv_as H u1 s1 H1. run_in H1. injection H1 as _ <-.
    bind_inv_as H ok s2 H2. rewrite write_cmd_run in H2. injection H2 as <- <-.
    run_in H. injection H as <- <-.
    eexists. split; [left; reflexivity|].
    split; [reflexivity|]. repeat split; reflexivity.
  - destruct bf; simpl in H.
    + left. run_in H. injection H as <- <-. auto.
    + right. bind_inv_as H u1 s1 H1. run_in H1. injection H1 as _ <-.
      bind_inv_as H g1 s2 H2. run_in H2. injection H2 as <- <-.
      bind_inv_as H ok s3 H3. rewrite write_cmd_run in H3.
      injection H3 as <- <-.
      run_in H. injection H as <- <-.
      eexists. split; [right; reflexivity|].
      split; [reflexivity|]. repeat split; reflexivity.
Qed.

Lemma write_run_nil (g : globals) (blocks : list Z) (bf r : bool) :
  write_run g blocks bf r [].
Proof.
  split; [constructor|]. split; [apply sublist_nil_l|].
  split; [intros _; constructor|]. split.
  - intros pre e post Hp. destruct pre; discriminate Hp.
  - intros _ _ e He. inversion He.
Qed.

(** A run that skipped its first block. *)
Lemma write_run_skip (g : globals) (b : Z) (rest : list Z) (r : bool)
    (evs : list event) :
  write_run g rest true r evs -> write_run g (b :: rest) true r evs.
Proof.
  intros (Hw & Hsub & Htr & Hpost & _).
  split; [exact Hw|]. split; [apply sublist_cons; exact Hsub|].
  split; [exact Htr|]. split; [exact Hpost|].
  intros _ Hbf. discriminate Hbf.
Qed.

(** A run that wrote its first block [b] with event [e] and went on with
    the events [evs]; [stop] says that the loop ended right after [e]. *)
Lemma write_run_cons (g : globals) (b : Z) (rest : list Z) (bf r : bool)
    (e : event) (evs : list event) :
  mifare_block MC_WRITE e = Some b ->
  is_trailer_block b = true \/ bf = false ->
  write_run g rest (if succeeded e then bf else true) r evs ->
  (bTolerateFailures g = false -> succeeded e = false ->
   evs = [] /\ r = false) ->
  write_run g (b :: rest) bf r (e :: evs).
Proof.
  intros Hb Hwhy (Hw & Hsub & Htr & Hpost & Hstrict) Hstop.
  split.
  { constructor; [unfold is_cmd; rewrite Hb; reflexivity | exact Hw]. }
  split.
  { rewrite blocks_of_cons, Hb. apply sublist_skip. exact Hsub. }
  split.
  { intros ->. rewrite blocks_of_cons, Hb. constructor.
    - destruct Hwhy as [Ht | Hbf]; [exact Ht | discriminate Hbf].
    - apply Htr. destruct (succeeded e); reflexivity. }
  split.
  { intros pre e0 post Hp Hf. destruct pre as [|x pre]; simpl in Hp.
    - injection Hp as <- <-. apply Htr. rewrite Hf. reflexivity.
    - injection Hp as _ Hp. apply (Hpost pre e0 post Hp Hf). }
  intros Htol -> e0 He0 Hf.
  apply elem_of_cons in He0 as [-> | He0].
  - destruct (Hstop Htol Hf) as [-> ->]. split; reflexivity.
  - destruct (succeeded e) eqn:Hs.
    + destruct (Hstrict Htol eq_refl e0 He0 Hf) as [Hr Hl].
      split; [exact Hr | apply last_cons_nonempty; exact Hl].
    + destruct (Hstop Htol eq_refl) as [-> _]. inversion He0.
Qed.

(** The blocks after the first one of a sector. *)
Lemma write_blocks_rest (lib : nfc_library) (g : globals) (wbz : bool) :
  forall (blocks : list Z) (bf : bool) (s s' : state) (r : bool),
  Forall (fun b => is_first_block b = false) blocks ->
  write_blocks lib g wbz blocks bf s = (r, s') ->
  exists evs,
    trace s' = trace s ++ evs /\ write_run g blocks bf r evs /\
    mtKeys s' = mtKeys s /\ mtDump s' = mtDump s.
Proof.
  induction blocks as [|b rest IH]; intros bf s s' r Hall H.
  - run_in H. injection H as <- <-. exists []. rewrite app_nil_r.
    split; [reflexivity|]. split; [apply write_run_nil | auto].
  - inversion Hall as [|? ? Hb Hrest]; subst.
    simpl in H. bind_inv_as H it sh Hhead.
    apply write_block_rest in Hhead; [|exact Hb].
    destruct Hhead as [(Ht & -> & -> & ->) |
                       (e & Hwhy & Htr & Hbe & Hk & Hd & ->)].
    + (* a data block after a failure: skipped *)
      destruct (bTolerateFailures g) eqn:Htol; simpl in H.
      * apply IH in H; [|exact Hrest].
        destruct H as (evs & Htr' & Hrun & Hk' & Hd').
        exists evs. split; [exact Htr'|].
        split; [apply write_run_skip; exact Hrun | auto].
      * run_in H. injection H as <- <-. exists []. rewrite app_nil_r.
        split; [reflexivity|]. split; [apply write_run_nil | auto].
    + (* the block is written *)
      destruct (negb (bTolerateFailures g) && (if succeeded e then bf else true))
        eqn:Hstop.
      * (* a failure that is not tolerated *)
        run_in H. injection H as <- <-. exists [e].
        split; [exact Htr|]. split; [|auto].
        apply write_run_cons; try assumption; [apply write_run_nil|].
        intros _ _. auto.
      * apply IH in H; [|exact Hrest].
        destruct H as (evs & Htr' & Hrun & Hk' & Hd').
        exists (e :: evs). split.
        { rewrite Htr', Htr, <- app_assoc. reflexivity. }
        split; [|rewrite Hk', Hd'; auto].
        apply write_run_cons; try assumption.
        intros Htol Hf. rewrite Htol, Hf in Hstop. discriminate Hstop.
Qed.

(** The block that opens a sector, when it opens a group: authenticate
    unless block 0 may be written, then skip block 0, or give up on a wrong
    BCC, or write. *)
Lemma write_block_head (lib : nfc_library) (g : globals) (wbz : bool) (b : Z)
    (s s' : state) (it : iteration) :
  is_first_block b = true ->
  is_trailer_block b = false ->
  write_block lib g wbz b false s = (it, s') ->
  exists ok sa,
    (if wbz then (true, s) else authenticate lib g b s) = (ok, sa) /\
    ((ok = false /\ it = ReturnFalse /\ s' = sa) \/
     (ok = true /\
      let p := memcpy (mp sa) 0 (abtData (amb (mtDump sa) b)) 16 in
      let skip := (b =? 0) && negb wbz && negb (magic2 g) in
      let bad := (b =? 0) && (bcc_incorrect p && negb (magic2 g)) in
      ((skip = true /\ it = ContinueLoop /\ s' = sa) \/
       (skip = false /\ bad = true /\ it = ReturnFalse /\ s' = set_mp p sa) \/
       (skip = false /\ bad = false /\
        let e := event_of lib (MifareCmd MC_WRITE b p) (set_mp p sa) in
        s' = set_trace (trace sa ++ [e]) (set_mp p sa) /\
        it = EndOfBody (negb (succeeded e)))))).
Proof.
  intros Hf Ht H. unfold write_block in H. rewrite Hf, Ht in H.
  bind_inv_as H en se Hen.
  bind_inv_as Hen sel ss Hsel. run_in Hsel. injection Hsel as <- <-.
  simpl in Hen. bind_inv_as Hen ok sa Hauth.
  exists ok, sa. split.
  { destruct wbz; [run_in Hauth|]; exact Hauth. }
  destruct ok; simpl in Hen; run_in Hen; injection Hen as <- <-.
  2:{ left. run_in H. injection H as <- <-. auto. }
  right. split; [reflexivity|]. cbv zeta.
  destruct ((b =? 0) && negb wbz && negb (magic2 g)) eqn:Hskip.
  { left. run_in H. injection H as <- <-. auto. }
  right. simpl in H.
  bind_inv_as H u1 s1 H1. run_in H1. injection H1 as _ <-.
  bind_inv_as H g1 s2 H2. run_in H2. injection H2 as <- <-.
  cbn [mp set_mp] in H.
  destruct ((b =? 0) && (bcc_incorrect _ && negb (magic2 g))) eqn:Hbad.
  { left. run_in H. injection H as <- <-. auto. }
  right. bind_inv_as H ok s3 H3. rewrite write_cmd_run in H3.
  injection H3 as <- <-. run_in H. injection H as <- <-.
  split; [reflexivity|]. split; [reflexivity|].
  split; [reflexivity|].
  destruct (succeeded _); reflexivity.
Qed.

(** A run over [rest] is a run over [b :: rest] that left [b] out. *)
Lemma write_run_weaken (g : globals) (b : Z) (rest : list Z) (bf r : bool)
    (evs : list event) :
  write_run g rest bf r evs -> write_run g (b :: rest) bf r evs.
Proof.
  intros (Hw & Hsub & Htr & Hpost & Hstrict).
  split; [exact Hw|]. split; [apply sublist_cons; exact Hsub|].
  split; [exact Htr|]. split; [exact Hpost | exact Hstrict].
Qed.

Lemma sector_rest_not_first (iSector : Z) :
  Forall (fun b => is_first_block b = false)
    [4 * iSector + 1; 4 * iSector + 2; 4 * iSector + 3].
Proof.
  repeat constructor; apply not_first_in_sector; lia.
Qed.

Lemma sector_head_not_trailer (iSector : Z) :
  is_trailer_block (4 * iSector) = false.
Proof.
  replace (4 * iSector) with (4 * iSector + 0) by lia.
  apply not_trailer_in_sector. lia.
Qed.

Lemma write_blocks_cons (lib : nfc_library) (g : globals) (wbz : bool)
    (b : Z) (rest : list Z) (bf : bool) :
  write_blocks lib g wbz (b :: rest) bf =
    (it <- write_block lib g wbz b bf ;;
     match it with
     | ReturnFalse => ret false
     | ContinueLoop => write_blocks lib g wbz rest bf
     | EndOfBody bFailure' =>
         if negb (bTolerateFailures g) && bFailure' then ret false
         else write_blocks lib g wbz rest bFailure'
     end).
Proof. reflexivity. Qed.

(** The shape of every run of [write_sector]: the unlock handshake when
    block 0 may be written; then, when the sector's first block opens a
    group and authentication is not bypassed, one call of [authenticate] on
    that block; then nothing but block writes. *)
Lemma write_sector_shape (lib : nfc_library) (g : globals) (iSector : Z)
    (wbz : bool) (s s' : state) (r : bool) :
  write_sector lib g iSector wbz s = (r, s') ->
  let f := 4 * iSector in
  exists u su,
    (if wbz then unlock_card lib g s else (true, s)) = (u, su) /\
    ((u = false /\ r = false /\ s' = su) \/
     (u = true /\
      exists ok sa,
        (if is_first_block f && negb wbz then authenticate lib g f su
         else (true, su)) = (ok, sa) /\
        ((ok = false /\ r = false /\ s' = sa) \/
         (ok = true /\
          exists evs, trace s' = trace sa ++ evs /\
            write_run g (sector_blocks iSector) false r evs /\
            mtKeys s' = mtKeys sa /\ mtDump s' = mtDump sa)))).
Proof.
  intros H f. unfold write_sector in H. bind_inv_as H u su Hu.
  exists u, su. split.
  { destruct wbz; [|run_in Hu]; exact Hu. }
  destruct u; simpl in H.
  2:{ left. run_in H. injection H as <- <-. auto. }
  right. split; [reflexivity|].
  rewrite sector_blocks_eq in *. fold f in H |- *.
  pose proof (sector_rest_not_first iSector) as Hrest. fold f in Hrest.
  pose proof (sector_head_not_trailer iSector) as Hnt. fold f in Hnt.
  destruct (is_first_block f) eqn:Hf.
  - rewrite write_blocks_cons in H. bind_inv_as H it sh Hhead.
    apply write_block_head in Hhead; [|exact Hf|exact Hnt].
    destruct Hhead as (ok & sa & Hauth & Hcase).
    exists ok, sa. split.
    { destruct wbz; simpl; exact Hauth. }
    destruct Hcase as [(-> & -> & ->) | (-> & Hcase)].
    { left. run_in H. injection H as <- <-. auto. }
    right. split; [reflexivity|]. cbv zeta in Hcase.
    destruct Hcase as [(_ & -> & ->) | [(_ & _ & -> & ->) | (_ & _ & -> & ->)]].
    + (* block 0 is left alone *)
      apply write_blocks_rest in H; [|exact Hrest].
      destruct H as (evs & Htr & Hrun & Hk & Hd).
      exists evs. split; [exact Htr|].
      split; [apply write_run_weaken; exact Hrun | auto].
    + (* wrong BCC *)
      run_in H. injection H as <- <-. exists []. rewrite app_nil_r.
      split; [reflexivity|]. split; [apply write_run_nil | auto].
    + (* the first block is written *)
      match type of H with
      | context [succeeded ?ev] => set (e := ev) in *
      end.
      destruct (negb (bTolerateFailures g) && negb (succeeded e)) eqn:Hstop.
      * run_in H. injection H as <- <-. exists [e].
        split; [reflexivity|]. split; [|auto].
        apply write_run_cons; [reflexivity | auto | apply write_run_nil | auto].
      * apply write_blocks_rest in H; [|exact Hrest].
        destruct H as (evs & Htr & Hrun & Hk & Hd).
        exists (e :: evs). split.
        { rewrite Htr. cbn [trace set_trace]. rewrite <- app_assoc. reflexivity. }
        split; [|rewrite Hk, Hd; auto].
        apply write_run_cons; [reflexivity | auto | |].
        { destruct (succeeded e); exact Hrun. }
        intros Htol Hfail. rewrite Htol, Hfail in Hstop. discriminate Hstop.
  - exists true, su. split; [reflexivity|].
    right. split; [reflexivity|].
    apply write_blocks_rest in H.
    2:{ constructor; [exact Hf | exact Hrest]. }
    destruct H as (evs & Htr & Hrun & Hk & Hd).
    exists evs. auto.
Qed.

Lemma split_after_prefix {A : Type} (X evs pre post : list A) (e : A) :
  X ++ evs = pre ++ e :: post -> e ∉ X ->
  exists pre', evs = pre' ++ e :: post.
Proof.
  revert pre. induction X as [|x X IH]; intros pre H Hn; simpl in H.
  - eauto.
  - destruct pre as [|y pre]; simpl in H; injection H as -> H.
    + elim Hn. apply list_elem_of_here.
    + apply (IH pre H). intros Hin. apply Hn.
      apply list_elem_of_further. exact Hin.
Qed.

Lemma no_io_not_in (evs : list event) (e : event) (mc : mifare_cmd) (b : Z)
    (p : list Z) :
  Forall (fun e => block_io e = false) evs ->
  ev_cmd e = MifareCmd mc b p -> mc = MC_READ \/ mc = MC_WRITE ->
  e ∉ evs.
Proof.
  intros Hall Hc Hmc Hin.
  exact (no_io_not_block_cmd evs e mc b p Hall Hin Hc Hmc).
Qed.

(** The calls of a run of [write_sector]: some that touch no block (the
    unlock handshake, authentication), then the block writes. *)
Lemma write_sector_events (lib : nfc_library) (g : globals) (iSector : Z)
    (wbz : bool) (s s' : state) (r : bool) :
  write_sector lib g iSector wbz s = (r, s') ->
  exists pre evs,
    emitted s s' = pre ++ evs /\
    Forall (fun e => block_io e = false) pre /\
    write_run g (sector_blocks iSector) false r evs /\
    mtDump s' = mtDump s.
Proof.
  intros H. apply write_sector_shape in H. cbv zeta in H.
  destruct H as (u & su & Hu & Hcase).
  assert (Hu' : exists evu, trace su = trace s ++ evu /\
                  Forall (fun e => block_io e = false) evu /\
                  mtDump su = mtDump s).
  { destruct wbz.
    - apply unlock_card_trace in Hu.
      destruct Hu as (evu & H1 & H2 & H3 & _). eauto.
    - injection Hu as _ <-. exists []. rewrite app_nil_r. auto. }
  destruct Hu' as (evu & Htru & Hiou & Hdu).
  destruct Hcase as [(-> & -> & ->) | (-> & ok & sa & Ha & Hcase)].
  { exists evu, []. rewrite app_nil_r.
    split; [apply emitted_app; exact Htru|].
    split; [exact Hiou|]. split; [apply write_run_nil | exact Hdu]. }
  assert (Ha' : exists eva, trace sa = trace su ++ eva /\
                  Forall (fun e => block_io e = false) eva /\
                  mtDump sa = mtDump su).
  { destruct (is_first_block (4 * iSector) && negb wbz).
    - apply authenticate_trace in Ha. destruct Ha as (eva & H1 & H2 & H3). eauto.
    - injection Ha as _ <-. exists []. rewrite app_nil_r. auto. }
  destruct Ha' as (eva & Htra & Hioa & Hda).
  rewrite Htru, <- app_assoc in Htra.
  assert (Hio : Forall (fun e => block_io e = false) (evu ++ eva))
    by (apply Forall_app; auto).
  destruct Hcase as [(-> & -> & ->) | (-> & evs & Htr & Hrun & _ & Hd)].
  { exists (evu ++ eva), []. rewrite app_nil_r.
    split; [apply emitted_app; exact Htra|].
    split; [exact Hio|]. split; [apply write_run_nil | congruence]. }
  exists (evu ++ eva), evs.
  split.
  { apply emitted_app. rewrite Htr, Htra, <- app_assoc. reflexivity. }
  split; [exact Hio|]. split; [exact Hrun | congruence].
Qed.

(** C3, the claim as stated, fails: with failures tolerated, after the write
    of block 1 fails the data block 2 is skipped, but the trailer block 3 is
    still written. *)
Lemma write_sector_writes_trailer_after_failure :
  let run := write_sector (lib_reject MC_WRITE 1) g_guess 0 false s0 in
  fst run = true /\
  blocks_of MC_WRITE (emitted s0 (snd run)) = [1; 3] /\
  bTolerateFailures g_guess = true /\ is_trailer_block 3 = true /\
  exists e, e ∈ emitted s0 (snd run) /\
    mifare_block MC_WRITE e = Some 1 /\ succeeded e = false.
Proof.
  vm_compute. repeat split; try reflexivity.
  eexists. split; [apply list_elem_of_further, list_elem_of_here|].
  split; reflexivity.
Qed.

(** C3, amended: in every run of [write_sector], no write command is issued
    for a block that is not a trailer once a write has failed; and when
    failures are not tolerated the failed write is the last call made, and
    [write_sector] returns [false]. *)
Theorem write_sector_failure_skips (lib : nfc_library) (g : globals)
    (iSector : Z) (wbz : bool) (s s' : state) (r : bool) :
  write_sector lib g iSector wbz s = (r, s') ->
  (forall pre e post b p,
     emitted s s' = pre ++ e :: post ->
     ev_cmd e = MifareCmd MC_WRITE b p -> succeeded e = false ->
     Forall (fun b' => is_trailer_block b' = true) (blocks_of MC_WRITE post)) /\
  (bTolerateFailures g = false ->
   forall e b p,
     e ∈ emitted s s' ->
     ev_cmd e = MifareCmd MC_WRITE b p -> succeeded e = false ->
     r = false /\ last (emitted s s') = Some e).
Proof.
  intros H. apply write_sector_events in H.
  destruct H as (X & evs & Hem & Hio & Hrun & _).
  destruct Hrun as (_ & _ & _ & Hpost & Hstrict).
  assert (Hwr : MC_WRITE = MC_READ \/ MC_WRITE = MC_WRITE) by auto.
  rewrite Hem. split.
  - intros pre e post b p Hsplit Hc Hf.
    apply split_after_prefix in Hsplit.
    2:{ apply (no_io_not_in X e MC_WRITE b p Hio Hc Hwr). }
    destruct Hsplit as (pre' & Hevs).
    apply (Hpost pre' e post Hevs Hf).
  - intros Htol e b p He Hc Hf.
    apply elem_of_app in He as [He | He].
    { destruct (no_io_not_in X e MC_WRITE b p Hio Hc Hwr He). }
    destruct (Hstrict Htol eq_refl e He Hf) as [Hr Hl].
    split; [exact Hr | apply last_app_nonempty; exact Hl].
Qed.

Lemma write_sector_failure_skips_witness :
  let run := write_sector (lib_reject MC_WRITE 1) g_guess 0 false s0 in
  let strict := write_sector (lib_reject MC_WRITE 1) g_strict 0 false s0 in
  blocks_of MC_WRITE (emitted s0 (snd run)) = [1; 3] /\
  fst strict = false /\
  Forall (fun b' => is_trailer_block b' = true) [3].
Proof.
  set (run := write_sector (lib_reject MC_WRITE 1) g_guess 0 false s0).
  set (strict := write_sector (lib_reject MC_WRITE 1) g_strict 0 false s0).
  split; [vm_compute; reflexivity|].
  split.
  { destruct (write_sector_failure_skips (lib_reject MC_WRITE 1) g_strict 0
                false s0 (snd strict) (fst strict)
                ltac:(vm_compute; reflexivity)) as [_ Hstrict].
    apply (Hstrict eq_refl
             (Event (MifareCmd MC_WRITE 1 (replicate 16 0)) answer_fail)
             1 (replicate 16 0)).
    - vm_compute. apply list_elem_of_further, list_elem_of_here.
    - reflexivity.
    - reflexivity. }
  destruct (write_sector_failure_skips (lib_reject MC_WRITE 1) g_guess 0 false
              s0 (snd run) (fst run) ltac:(vm_compute; reflexivity))
    as [Hskip _].
  set (e1 := Event (MifareCmd MC_WRITE 1 (replicate 16 0)) answer_fail).
  set (e3 := Event (MifareCmd MC_WRITE 3 (replicate 16 0)) answer_ok).
  set (pre := removelast (removelast (emitted s0 (snd run)))).
  apply (Hskip pre e1 [e3] 1 (replicate 16 0)).
  - vm_compute. reflexivity.
  - reflexivity.
  - reflexivity.
Defined.

(** ** Block 0 and its BCC *)

Lemma bcc_of_uid_04123456 (mp0 rest : list Z) (bcc : Z) :
  bcc_incorrect
    (memcpy mp0 0 (abtData ([0x04; 0x12; 0x34; 0x56; bcc] ++ rest)) 16) = false
  <-> bcc = 0x74.
Proof.
  unfold bcc_incorrect, memcpy, abtData, byte_at. simpl.
  rewrite negb_false_iff, Z.eqb_eq.
  change (Z.lxor (Z.lxor (Z.lxor 4 18) 52) 86) with 116.
  rewrite Z.lxor_eq_0_iff. split; intros E; symmetry; exact E.
Qed.

(** C1, the claim as stated, fails: for the UID 04 12 34 56 the BCC byte
    0x60 does not pass the check; [write_sector] gives up before any write. *)
Lemma bcc_0x60_is_rejected :
  let block0 := [0x04; 0x12; 0x34; 0x56; 0x60] ++ replicate 11 0 in
  let run := write_sector lib_ok g_guess 0 true (s_dump0 block0) in
  bcc_incorrect block0 = true /\
  fst run = false /\
  blocks_of MC_WRITE (emitted (s_dump0 block0) (snd run)) = [].
Proof. vm_compute. repeat split; reflexivity. Qed.

(** C1, amended: when [write_sector] is to write block 0 of a card that is
    not magic2, it first runs the unlock handshake; if the XOR of the first
    five bytes of block 0 is not 0 it returns [false] and issues no write
    command at all; if the XOR is 0 and the handshake succeeded, the first
    call after the handshake is the write of block 0.  For the UID
    04 12 34 56 the check passes exactly for the BCC byte 0x74. *)
Theorem write_sector_block0_bcc (lib : nfc_library) (g : globals)
    (s s' : state) (r : bool) :
  magic2 g = false ->
  write_sector lib g 0 true s = (r, s') ->
  let p := memcpy (mp s) 0 (abtData (amb (mtDump s) 0)) 16 in
  (bcc_incorrect p = true ->
   r = false /\ blocks_of MC_WRITE (emitted s s') = []) /\
  (exists u su,
     unlock_card lib g s = (u, su) /\
     (u = false -> r = false /\ s' = su) /\
     (u = true -> bcc_incorrect p = true -> r = false /\ trace s' = trace su) /\
     (u = true -> bcc_incorrect p = false ->
      exists rest,
        emitted su s' = event_of lib (MifareCmd MC_WRITE 0 p) (set_mp p su)
                          :: rest)) /\
  (forall bcc rest,
     amb (mtDump s) 0 = [0x04; 0x12; 0x34; 0x56; bcc] ++ rest ->
     (bcc_incorrect p = false <-> bcc = 0x74)).
Proof.
  intros Hmagic H p.
  assert (Hwr : MC_WRITE = MC_READ \/ MC_WRITE = MC_WRITE) by auto.
  assert (Hmain : exists u su,
     unlock_card lib g s = (u, su) /\
     (u = false -> r = false /\ s' = su) /\
     (u = true -> bcc_incorrect p = true -> r = false /\ trace s' = trace su) /\
     (u = true -> bcc_incorrect p = false ->
      exists rest,
        emitted su s' = event_of lib (MifareCmd MC_WRITE 0 p) (set_mp p su)
                          :: rest)).
  { unfold write_sector in H. bind_inv_as H u su Hu.
    exists u, su. split; [reflexivity|].
    pose proof (unlock_card_trace lib g s su u Hu)
      as (evu & Htru & Hiou & Hdu & Hmpu & _).
    destruct u; cbn [negb] in H.
    2:{ run_in H. injection H as <- <-.
        split; [auto|]. split; intros Hc; discriminate Hc. }
    split; [intros Hc; discriminate Hc|].
    rewrite sector_blocks_eq, write_blocks_cons in H.
    bind_inv_as H it sh Hhead.
    apply write_block_head in Hhead; [|reflexivity|reflexivity].
    destruct Hhead as (ok & sa & Hauth & Hcase).
    injection Hauth as <- <-.
    destruct Hcase as [(Hc & _) | (_ & Hcase)]; [discriminate Hc|].
    cbv zeta in Hcase. rewrite Hmagic, Hmpu, Hdu in Hcase.
    change (4 * 0) with 0 in Hcase. fold p in Hcase.
    change ((0 =? 0) && negb true && negb false) with false in Hcase.
    change ((0 =? 0) && (bcc_incorrect p && negb false))
      with (bcc_incorrect p && true) in Hcase.
    rewrite andb_true_r in Hcase.
    destruct Hcase as [(Hc & _) | [(_ & Hbad & -> & ->) | (_ & Hbad & -> & ->)]];
      [discriminate Hc | |].
    - run_in H. injection H as <- <-.
      split; [auto|]. intros _ Hc. congruence.
    - split; [intros _ Hc; congruence|]. intros _ _.
      match type of H with
      | context [succeeded ?ev] => set (e := ev) in *
      end.
      destruct (negb (bTolerateFailures g) && negb (succeeded e)).
      + run_in H. injection H as _ <-. exists [].
        apply emitted_app. reflexivity.
      + apply write_blocks_rest in H.
        2:{ apply (sector_rest_not_first 0). }
        destruct H as (evs & Htr & _). exists evs.
        apply emitted_app. rewrite Htr. cbn [trace set_trace set_mp].
        rewrite <- app_assoc. reflexivity. }
  split; [|split; [exact Hmain|]].
  - intros Hbad.
    destruct Hmain as (u & su & Hu & Hfail & Hbcc & _).
    pose proof (unlock_card_trace lib g s su u Hu)
      as (evu & Htru & Hiou & _).
    assert (Hs' : r = false /\ trace s' = trace su).
    { destruct u.
      - apply Hbcc; auto.
      - destruct (Hfail eq_refl) as [-> ->]. auto. }
    destruct Hs' as [-> Htr]. split; [reflexivity|].
    rewrite Htru in Htr. rewrite (emitted_app _ _ _ Htr).
    apply blocks_of_no_io; assumption.
  - intros bcc rest Hb. subst p. rewrite Hb. apply bcc_of_uid_04123456.
Qed.

Lemma write_sector_block0_bcc_witness :
  let block0 := [0x04; 0x12; 0x34; 0x56; 0x74] ++ replicate 11 0 in
  let st := s_dump0 block0 in
  let run := write_sector lib_ok g_guess 0 true st in
  fst run = true /\
  bcc_incorrect (memcpy (mp st) 0 (abtData (amb (mtDump st) 0)) 16) = false /\
  blocks_of MC_WRITE (emitted st (snd run)) = [0; 1; 2; 3].
Proof.
  set (block0 := [0x04; 0x12; 0x34; 0x56; 0x74] ++ replicate 11 0).
  set (st := s_dump0 block0).
  set (run := write_sector lib_ok g_guess 0 true st).
  split; [vm_compute; reflexivity|].
  split; [|vm_compute; reflexivity].
  destruct (write_sector_block0_bcc lib_ok g_guess st (snd run) (fst run)
              eq_refl ltac:(vm_compute; reflexivity)) as (_ & _ & Huid).
  apply (Huid 0x74 (replicate 11 0)); reflexivity.
Defined.

(** ** Where a guessed key is stored *)

Lemma guess_keys_success_stores (lib : nfc_library) (g : globals)
    (mc : mifare_cmd) (uiBlock : Z) (remaining key_index : nat)
    (s s' : state) :
  mc <> MC_READ ->
  guess_keys lib g mc uiBlock remaining key_index s = (true, s') ->
  exists key,
    mtKeys s' =
      store_amb (mtKeys s) uiBlock (if bUseKeyA g then 0 else 10)%nat key 6.
Proof.
  intros Hmc. revert key_index s.
  induction remaining as [|n IH]; intros key_index s H; simpl in H.
  - run_in H. discriminate H.
  - bind_inv_as H u1 s1 H1. run_in H1. injection H1 as _ <-.
    bind_inv_as H ok s2 H2. rewrite auth_cmd_run in H2 by exact Hmc.
    injection H2 as <- <-.
    destruct (r_ok _).
    + run_in H. injection H as <-. eexists. reflexivity.
    + bind_inv_as H g1 s3 H3. run_in H3. injection H3 as <- <-.
      bind_inv_as H sel s4 H4. rewrite select_keep_nt_run in H4.
      injection H4 as _ <-.
      apply IH in H. destruct H as (key & Hk). exists key. exact Hk.
Qed.

Lemma amb_store_amb_other (t : list (list Z)) (i j : Z) (off : nat)
    (src : list Z) (n : nat) :
  Z.to_nat i <> Z.to_nat j ->
  amb (store_amb t i off src n) j = amb t j.
Proof.
  intros H. unfold amb, store_amb. rewrite list_lookup_alter_ne by exact H.
  reflexivity.
Qed.

(** In guessing mode a successful [authenticate] writes [mtKeys] at the
    block it was called on and nowhere else: for a block that is not a
    trailer, the trailer slot of its sector is left as it was. *)
Lemma authenticate_guess_leaves_trailer_slot (lib : nfc_library) (g : globals)
    (uiBlock : Z) (s s' : state) :
  bUseKeyFile g = false ->
  0 <= uiBlock < 2 ^ 32 ->
  is_trailer_block uiBlock = false ->
  authenticate lib g uiBlock s = (true, s') ->
  amb (mtKeys s') (get_trailer_block uiBlock)
    = amb (mtKeys s) (get_trailer_block uiBlock).
Proof.
  intros Hmode Hb Ht H. unfold authenticate in H. rewrite Hmode in H.
  bind_inv_as H u1 s1 H1. run_in H1. injection H1 as _ <-.
  apply guess_keys_success_stores in H; [|apply key_cmd_not_read].
  destruct H as (key & ->). cbn [mtKeys set_mp].
  apply amb_store_amb_other.
  destruct (get_trailer_block_is_trailer uiBlock Hb) as (Hle & Htr).
  intros E. apply Z2Nat.inj in E; [|lia|lia].
  rewrite <- E in Htr. congruence.
Qed.

Lemma authenticate_guess_leaves_trailer_slot_witness :
  amb (mtKeys (snd (authenticate lib_ok g_guess 4 s0))) (get_trailer_block 4)
    = amb (mtKeys s0) (get_trailer_block 4).
Proof.
  apply (authenticate_guess_leaves_trailer_slot lib_ok g_guess 4 s0).
  - reflexivity.
  - change (2 ^ 32) with 4294967296. lia.
  - reflexivity.
  - vm_compute. reflexivity.
Defined.

(** C2: the code at a failing input.  [write_sector] authenticates on the
    first block of the sector; in guessing mode the key found for sector 1
    (blocks 4..7) lands in the key-A field of block 4 of [mtKeys], and the
    slot of the sector's trailer, block 7, stays empty. *)
Theorem guessed_key_lands_on_first_block :
  let run := write_sector lib_ok g_guess 1 false s0 in
  fst run = true /\
  get_trailer_block 4 = 7 /\
  abtKeyA (amb (mtKeys (snd run)) 4) = [0xff; 0xff; 0xff; 0xff; 0xff; 0xff] /\
  amb (mtKeys (snd run)) 7 = zero_block /\
  amb (mtKeys s0) 4 = zero_block.
Proof. vm_compute. repeat split; reflexivity. Qed.

(** ** The exit code *)

Lemma main_sectors_write_exit (lib : nfc_library) (g : globals) (unlock : bool)
    (lSector : list Z) :
  forall (s s' : state) (code : Z),
  main_sectors lib g ACTION_WRITE unlock lSector s = (code, s') ->
  code = EXIT_SUCCESS.
Proof.
  induction lSector as [|iSector rest IH]; intros s s' code H; simpl in H.
  - run_in H. injection H as <- _. reflexivity.
  - bind_inv_as H w sw Hw. apply (IH _ _ _ H).
Qed.

Lemma main_sectors_write_exit_witness :
  fst (main_sectors lib_fail g_guess ACTION_WRITE false [0; 1] s0)
    = EXIT_SUCCESS /\
  fst (write_sector lib_fail g_guess 0 false s0) = false.
Proof.
  split; [|vm_compute; reflexivity].
  apply (main_sectors_write_exit lib_fail g_guess false [0; 1] s0
           (snd (main_sectors lib_fail g_guess ACTION_WRITE false [0; 1] s0))).
  vm_compute. reflexivity.
Defined.

(** C4: the code at a failing input.  In key-file mode, with a tag that
    rejects the key of the file, [read_sector] fails on sector 0 and the
    sector loop of [main] still ends with [exit(EXIT_SUCCESS)]; the dump is
    not written. *)
Theorem main_exit_success_after_auth_failure :
  let run := main_sectors lib_no_auth g_keyfile ACTION_READ false [0] s0 in
  bUseKeyFile g_keyfile = true /\
  fst (read_sector lib_no_auth g_keyfile 0 false s0) = false /\
  fst run = EXIT_SUCCESS /\
  map ev_cmd (emitted s0 (snd run)) =
    [MifareCmd MC_AUTH_A 3
       (replicate 6 0 ++ [0x04; 0x12; 0x34; 0x56] ++ replicate 6 0)].
Proof. vm_compute. repeat split; reflexivity. Qed.

(** * Further properties of the sector engine *)

(** ** Sector layout *)

(** A block is a trailer exactly when it is its own trailer; so
    [get_trailer_block] is idempotent. *)
Theorem trailer_block_fixpoint (b : Z) :
  0 <= b < 2 ^ 32 ->
  (is_trailer_block b = true <-> get_trailer_block b = b) /\
  get_trailer_block (get_trailer_block b) = get_trailer_block b.
Proof.
  intros Hb.
  assert (Hiff : forall x, 0 <= x < 2 ^ 32 ->
            (is_trailer_block x = true <-> get_trailer_block x = x)).
  { intros x Hx. change (2 ^ 32) with 4294967296 in *.
    destruct (Z_lt_ge_dec x 128) as [Hlo|Hhi].
    - rewrite get_trailer_block_low, is_trailer_block_low by lia.
      rewrite Z.eqb_eq. split; intros H; Z.div_mod_to_equations; lia.
    - rewrite get_trailer_block_high, is_trailer_block_high
        by (change (2 ^ 32) with 4294967296; lia).
      rewrite Z.eqb_eq. split; intros H; Z.div_mod_to_equations; lia. }
  split; [apply Hiff; exact Hb|].
  destruct (get_trailer_block_is_trailer b Hb) as [Hge Htr].
  apply Hiff; [|exact Htr].
  split; [exact Hge|].
  change (2 ^ 32) with 4294967296 in *.
  destruct (Z_lt_ge_dec b 128) as [Hlo|Hhi].
  - rewrite get_trailer_block_low by lia. Z.div_mod_to_equations. lia.
  - rewrite get_trailer_block_high by (change (2 ^ 32) with 4294967296; lia).
    Z.div_mod_to_equations. lia.
Qed.

Lemma trailer_block_fixpoint_witness :
  get_trailer_block (get_trailer_block 130) = get_trailer_block 130.
Proof.
  apply (trailer_block_fixpoint 130). change (2 ^ 32) with 4294967296. lia.
Defined.

(** From the first block of a sector the trailer is 3 blocks further below
    block 128 and 15 blocks further from block 128 on, and no block is both
    the first block and the trailer of a sector. *)
Theorem first_block_trailer_distance (f : Z) :
  0 <= f < 2 ^ 32 ->
  is_first_block f = true ->
  get_trailer_block f = (if f <? 128 then f + 3 else f + 15) /\
  is_trailer_block f = false.
Proof.
  intros Hf Hfirst. change (2 ^ 32) with 4294967296 in *.
  unfold is_first_block in Hfirst.
  destruct (Z.ltb_spec f 128) as [Hlo|Hhi]; apply Z.eqb_eq in Hfirst.
  - rewrite get_trailer_block_low, is_trailer_block_low by lia.
    split; [lia|]. apply Z.eqb_neq. Z.div_mod_to_equations. lia.
  - rewrite get_trailer_block_high, is_trailer_block_high
      by (change (2 ^ 32) with 4294967296; lia).
    split; [lia|]. apply Z.eqb_neq. Z.div_mod_to_equations. lia.
Qed.

Lemma first_block_trailer_distance_witness :
  get_trailer_block 144 = 159 /\ is_trailer_block 144 = false.
Proof.
  apply (first_block_trailer_distance 144).
  - change (2 ^ 32) with 4294967296. lia.
  - reflexivity.
Defined.

(** The sectors the command line admits (0 to 15), and all sectors below 32,
    cover blocks below 128 of the 256-block images, start on a first block
    and end on a trailer block; so does no sector from 32 on unless its
    number is one less than a multiple of 4. *)
Theorem sector_blocks_aligned (iSector : Z) :
  0 <= iSector ->
  sector_blocks iSector =
    [4 * iSector; 4 * iSector + 1; 4 * iSector + 2; 4 * iSector + 3] /\
  (iSector < 32 ->
   4 * iSector + 3 < 128 /\
   is_first_block (4 * iSector) = true /\
   is_trailer_block (4 * iSector + 3) = true) /\
  (32 <= iSector < 2 ^ 30 ->
   is_trailer_block (4 * iSector + 3) = ((iSector + 1) mod 4 =? 0) /\
   is_first_block (4 * iSector) = (iSector mod 4 =? 0)).
Proof.
  intros H0. split; [apply sector_blocks_eq|]. split.
  - intros H32. split; [lia|]. split.
    + unfold is_first_block. destruct (Z.ltb_spec (4 * iSector) 128); [|lia].
      apply Z.eqb_eq. Z.div_mod_to_equations. lia.
    + rewrite is_trailer_block_low by lia.
      apply Z.eqb_eq. Z.div_mod_to_equations. lia.
  - intros H. change (2 ^ 30) with 1073741824 in H. split.
    + rewrite is_trailer_block_high by (change (2 ^ 32) with 4294967296; lia).
      destruct (Z.eqb_spec ((iSector + 1) mod 4) 0) as [E|E].
      * apply Z.eqb_eq. Z.div_mod_to_equations. lia.
      * apply Z.eqb_neq. Z.div_mod_to_equations. lia.
    + unfold is_first_block. destruct (Z.ltb_spec (4 * iSector) 128); [lia|].
      destruct (Z.eqb_spec (iSector mod 4) 0) as [E|E].
      * apply Z.eqb_eq. Z.div_mod_to_equations. lia.
      * apply Z.eqb_neq. Z.div_mod_to_equations. lia.
Qed.

Lemma sector_blocks_aligned_witness :
  sector_blocks 15 = [60; 61; 62; 63] /\ is_trailer_block (4 * 15 + 3) = true.
Proof.
  destruct (sector_blocks_aligned 15 ltac:(lia)) as (Hb & Hlow & _).
  split; [exact Hb|]. apply Hlow. lia.
Defined.

(** ** The size guess *)

(** Whatever the tag answers, the guessed card has 20, 64, 128 or 256
    blocks, so the images read from and written to files never exceed the
    256 blocks of [mtKeys] and [mtDump]; a 4K tag (ATQA bit 1 set) is never
    taken for a smaller card; and a tag recognised as magic2 is never taken
    for a MIFARE Plus 2K. *)
Theorem guess_size_bounds (atqa1 sak res : Z) (rx : list Z) :
  let uiBlocks := fst (guess_size atqa1 sak res rx) in
  let magic := snd (guess_size atqa1 sak res rx) in
  (uiBlocks = 0x13 \/ uiBlocks = 0x3f \/ uiBlocks = 0x7f \/ uiBlocks = 0xff) /\
  (uiBlocks + 1) * 16 <= 256 * 16 /\
  (Z.land atqa1 0x02 = 0x02 -> uiBlocks = 0xff) /\
  (magic = true ->
   res = 9 /\
   uiBlocks = fst (guess_size atqa1 sak 0 rx)).
Proof.
  unfold guess_size. cbv zeta.
  set (base := if Z.land atqa1 2 =? 2 then 255
               else if Z.land sak 1 =? 1 then 19 else 63).
  assert (Hbase : base = 0x13 \/ base = 0x3f \/ base = 0xff).
  { subst base. destruct (Z.land atqa1 2 =? 2); [auto|].
    destruct (Z.land sak 1 =? 1); auto. }
  assert (H4k : Z.land atqa1 2 = 2 -> base = 0xff).
  { intros E. subst base. rewrite E. reflexivity. }
  destruct (Z.ltb_spec 0 res) as [Hres|Hres]; cbn [fst snd].
  2:{ repeat split; try lia; auto; discriminate. }
  set (rest := (byte_at rx 5 =? 193) && (byte_at rx 6 =? 5)
               && (byte_at rx 7 =? 47) && (byte_at rx 8 =? 47)
               && (Z.land atqa1 2 =? 0)).
  assert (Hplus : (10 <=? res) && (byte_at rx 5 =? 193) && (byte_at rx 6 =? 5)
                  && (byte_at rx 7 =? 47) && (byte_at rx 8 =? 47)
                  && (Z.land atqa1 2 =? 0)
                  = (10 <=? res) && rest).
  { subst rest. rewrite !andb_assoc. reflexivity. }
  rewrite Hplus. clear Hplus.
  split; [|split; [|split]].
  - destruct ((10 <=? res) && rest); lia.
  - destruct ((10 <=? res) && rest); lia.
  - intros E. subst rest. rewrite E. change (2 =? 0) with false.
    rewrite !andb_false_r. apply H4k. exact E.
  - intros Hm. rewrite !andb_true_iff in Hm.
    destruct Hm as [[[[H9 _] _] _] _]. apply Z.eqb_eq in H9.
    split; [exact H9|].
    destruct (Z.leb_spec 10 res) as [H10|H10]; [lia|].
    destruct (Z.ltb_spec 0 0); [lia|]. reflexivity.
Qed.

Lemma guess_size_bounds_witness :
  guess_size 0x00 0x08 9 [0; 0; 0; 0; 0; 0xda; 0xbc; 0x19; 0x10] = (0x3f, true) /\
  (snd (guess_size 0x00 0x08 9 [0; 0; 0; 0; 0; 0xda; 0xbc; 0x19; 0x10]) = true ->
   fst (guess_size 0x00 0x08 9 [0; 0; 0; 0; 0; 0xda; 0xbc; 0x19; 0x10])
     = fst (guess_size 0x00 0x08 0 [0; 0; 0; 0; 0; 0xda; 0xbc; 0x19; 0x10])).
Proof.
  split; [reflexivity|]. intros Hm.
  destruct (guess_size_bounds 0x00 0x08 9
              [0; 0; 0; 0; 0; 0xda; 0xbc; 0x19; 0x10]) as (_ & _ & _ & H).
  apply H. exact Hm.
Defined.

(** ** Authentication, in general *)

(** In key-file mode [authenticate] makes exactly one attempt, with the key
    of the chosen type taken from the trailer slot of the block's sector in
    [mtKeys] and the last four bytes of the UID; it never re-selects the tag,
    reports what the tag answered, and leaves both card images as they
    were. *)
Theorem authenticate_keyfile_single_attempt (lib : nfc_library) (g : globals)
    (uiBlock : Z) (s s' : state) (r : bool) :
  bUseKeyFile g = true ->
  authenticate lib g uiBlock s = (r, s') ->
  let mc := if bUseKeyA g then MC_AUTH_A else MC_AUTH_B in
  let key := (if bUseKeyA g then abtKeyA else abtKeyB)
               (amb (mtKeys s) (get_trailer_block uiBlock)) in
  let uid := drop (length (nt_abtUid s) - 4)%nat (nt_abtUid s) in
  let p := memcpy (memcpy (mp s) 6 uid 4) 0 key 6 in
  exists e,
    emitted s s' = [e] /\
    ev_cmd e = MifareCmd mc uiBlock p /\
    r = r_ok (ev_resp e) /\
    mtKeys s' = mtKeys s /\ mtDump s' = mtDump s /\
    (length key = 6%nat -> take 6 p = key).
Proof.
  intros Hmode H. cbv zeta. unfold authenticate in H. rewrite Hmode in H.
  bind_inv_as H u1 s1 H1. run_in H1. injection H1 as _ <-.
  bind_inv_as H u2 s2 H2. run_in H2. injection H2 as _ <-.
  rewrite auth_cmd_run in H by apply key_cmd_not_read.
  injection H as <- <-.
  eexists. split; [apply emitted_app; reflexivity|].
  split; [reflexivity|]. split; [reflexivity|].
  split; [reflexivity|]. split; [reflexivity|].
  intros Hlen. rewrite memcpy_front_take.
  - apply take_ge. lia.
  - rewrite take_ge by lia. exact Hlen.
Qed.

Lemma authenticate_keyfile_single_attempt_witness :
  exists e,
    emitted s0 (snd (authenticate lib_ok g_keyfile 1 s0)) = [e] /\
    ev_cmd e = MifareCmd MC_AUTH_A 1
                 (replicate 6 0 ++ [0x04; 0x12; 0x34; 0x56] ++ replicate 6 0).
Proof.
  destruct (authenticate_keyfile_single_attempt lib_ok g_keyfile 1 s0
              (snd (authenticate lib_ok g_keyfile 1 s0)) true eq_refl
              ltac:(vm_compute; reflexivity))
    as (e & He & Hc & _).
  exists e. split; [exact He | exact Hc].
Defined.

Lemma count_cmds_nil (p : command -> bool) : count_cmds p [] = 0%nat.
Proof. reflexivity. Qed.

Lemma guess_keys_counts (lib : nfc_library) (g : globals) (mc : mifare_cmd)
    (uiBlock : Z) :
  mc = MC_AUTH_A \/ mc = MC_AUTH_B ->
  forall (remaining key_index : nat) (s s' : state) (r : bool),
  guess_keys lib g mc uiBlock remaining key_index s = (r, s') ->
  exists evs, trace s' = trace s ++ evs /\
    (count_cmds is_auth (map ev_cmd evs) <= remaining)%nat /\
    ((0 < remaining)%nat -> (1 <= count_cmds is_auth (map ev_cmd evs))%nat) /\
    (count_cmds is_select (map ev_cmd evs) + (if r then 1 else 0)
       = count_cmds is_auth (map ev_cmd evs))%nat /\
    Forall (fun e => is_auth (ev_cmd e) = true ->
              exists p, ev_cmd e = MifareCmd mc uiBlock p) evs.
Proof.
  intros Hmc.
  assert (Hnr : mc <> MC_READ) by (destruct Hmc as [-> | ->]; discriminate).
  induction remaining as [|n IH]; intros key_index s s' r H; simpl in H.
  - run_in H. injection H as <- <-. exists []. rewrite app_nil_r.
    repeat split; auto; lia.
  - bind_inv_as H u1 s1 H1. run_in H1. injection H1 as _ <-.
    bind_inv_as H ok s2 H2. rewrite auth_cmd_run in H2 by exact Hnr.
    injection H2 as <- <-.
    match type of H with
    | context [event_of lib ?c ?st] => set (e := event_of lib c st) in *
    end.
    assert (He : is_auth (ev_cmd e) = true)
      by (destruct Hmc as [-> | ->]; reflexivity).
    assert (Hsel : is_select (ev_cmd e) = false)
      by (destruct Hmc as [-> | ->]; reflexivity).
    assert (Hshape : exists p, ev_cmd e = MifareCmd mc uiBlock p)
      by (eexists; reflexivity).
    destruct (r_ok _); clearbody e.
    + run_in H. injection H as <- <-. exists [e].
      split; [reflexivity|]. simpl map.
      rewrite !count_cmds_cons, !count_cmds_nil, He, Hsel.
      split; [lia|]. split; [intros _; lia|].
      split; [reflexivity|].
      constructor; [|constructor]. intros _. exact Hshape.
    + bind_inv_as H g1 s3 H3. run_in H3. injection H3 as <- <-.
      bind_inv_as H sel s4 H4. rewrite select_keep_nt_run in H4.
      injection H4 as _ <-.
      apply IH in H. destruct H as (evs & Htr & Hle & _ & Heq & Hall).
      match type of Htr with
      | context [event_of lib (SelectPassiveTarget ?u) ?st] =>
          set (e2 := event_of lib (SelectPassiveTarget u) st) in *
      end.
      assert (He2 : is_auth (ev_cmd e2) = false) by reflexivity.
      assert (Hsel2 : is_select (ev_cmd e2) = true) by reflexivity.
      clearbody e2.
      exists (e :: e2 :: evs). split.
      { rewrite Htr. cbn [trace set_trace]. rewrite <- !app_assoc. reflexivity. }
      simpl map. rewrite !count_cmds_cons, He, Hsel, He2, Hsel2.
      split; [lia|]. split; [intros _; lia|].
      split; [lia|].
      constructor; [intros _; exact Hshape|].
      constructor; [intros Hc; congruence | exact Hall].
Qed.

(** Whatever the tag does, one call of [authenticate] makes at least one and
    at most [num_keys] (nine) authentication attempts, all on the block it
    was called for; in guessing mode it re-selects the tag once after each
    failed attempt and not after a successful one. *)
Theorem authenticate_attempts_bounded (lib : nfc_library) (g : globals)
    (uiBlock : Z) (s s' : state) (r : bool) :
  authenticate lib g uiBlock s = (r, s') ->
  let cmds := map ev_cmd (emitted s s') in
  (count_cmds is_auth cmds <= num_keys)%nat /\
  (bUseKeyFile g = true ->
   count_cmds is_auth cmds = 1%nat /\ count_cmds is_select cmds = 0%nat) /\
  (bUseKeyFile g = false ->
   (1 <= count_cmds is_auth cmds)%nat /\
   (count_cmds is_select cmds + (if r then 1 else 0)
      = count_cmds is_auth cmds)%nat) /\
  Forall (fun c => is_auth c = true ->
            exists mc p, c = MifareCmd mc uiBlock p) cmds.
Proof.
  intros H. cbv zeta.
  destruct (bUseKeyFile g) eqn:Hmode.
  - destruct (authenticate_keyfile_single_attempt lib g uiBlock s s' r Hmode H)
      as (e & -> & Hc & _).
    simpl map. rewrite Hc, !count_cmds_cons.
    assert (Ha : is_auth (MifareCmd (if bUseKeyA g then MC_AUTH_A else MC_AUTH_B)
                   uiBlock
                   (memcpy
                      (memcpy (mp s) 6
                         (drop (length (nt_abtUid s) - 4)%nat (nt_abtUid s)) 4)
                      0
                      ((if bUseKeyA g then abtKeyA else abtKeyB)
                         (amb (mtKeys s) (get_trailer_block uiBlock))) 6))
                 = true) by (destruct (bUseKeyA g); reflexivity).
    assert (Hs : is_select (MifareCmd (if bUseKeyA g then MC_AUTH_A else MC_AUTH_B)
                   uiBlock
                   (memcpy
                      (memcpy (mp s) 6
                         (drop (length (nt_abtUid s) - 4)%nat (nt_abtUid s)) 4)
                      0
                      ((if bUseKeyA g then abtKeyA else abtKeyB)
                         (amb (mtKeys s) (get_trailer_block uiBlock))) 6))
                 = false) by reflexivity.
    rewrite Ha, Hs, !count_cmds_nil. unfold num_keys. simpl.
    split; [lia|]. split; [auto|]. split; [discriminate|].
    constructor; [|constructor]. intros _. eexists. eexists. reflexivity.
  - unfold authenticate in H. rewrite Hmode in H.
    bind_inv_as H u1 s1 H1. run_in H1. injection H1 as _ <-.
    assert (Hmc : (if bUseKeyA g then MC_AUTH_A else MC_AUTH_B) = MC_AUTH_A \/
                  (if bUseKeyA g then MC_AUTH_A else MC_AUTH_B) = MC_AUTH_B)
      by (destruct (bUseKeyA g); auto).
    apply (guess_keys_counts lib g _ uiBlock Hmc) in H.
    destruct H as (evs & Htr & Hle & Hone & Heq & Hall).
    cbn [trace set_mp] in Htr. rewrite (emitted_app _ _ _ Htr).
    split; [exact Hle|]. split; [discriminate|]. split.
    + intros _. split; [|exact Heq].
      apply Hone. unfold num_keys. simpl. lia.
    + rewrite Forall_map. eapply Forall_impl; [exact Hall|].
      intros e He Ha. destruct (He Ha) as (p & Hp). eauto.
Qed.

Lemma authenticate_attempts_bounded_witness :
  let cmds := map ev_cmd
                (emitted s0 (snd (authenticate (lib_key (key_at 4)) g_guess_b 7 s0))) in
  count_cmds is_auth cmds = 5%nat /\ count_cmds is_select cmds = 4%nat /\
  (count_cmds is_auth cmds <= num_keys)%nat.
Proof.
  split; [vm_compute; reflexivity|]. split; [vm_compute; reflexivity|].
  apply (authenticate_attempts_bounded (lib_key (key_at 4)) g_guess_b 7 s0
           (snd (authenticate (lib_key (key_at 4)) g_guess_b 7 s0)) true).
  vm_compute. reflexivity.
Defined.

(** ** What the sector operations never do *)

Lemma unlock_card_no_auth (lib : nfc_library) (g : globals) (s s' : state)
    (r : bool) :
  unlock_card lib g s = (r, s') ->
  exists evs, trace s' = trace s ++ evs /\ Forall no_auth_no_select evs.
Proof.
  intros H. destruct (magic2 g) eqn:Hm.
  { rewrite unlock_card_magic2 in H by exact Hm. injection H as _ <-.
    exists []. rewrite app_nil_r. auto. }
  unfold unlock_card in H. rewrite Hm in H.
  bind_inv H. apply set_property_inv in Hm0 as (r1 & -> & ->).
  destruct (r_ok r1); simpl in H.
  1: bind_inv H; apply set_property_inv in Hm0 as (r2 & -> & ->);
     destruct (r_ok r2); simpl in H.
  1: bind_inv H; run_in Hm0; injection Hm0 as _ <-;
     bind_inv H; run_in Hm0; injection Hm0 as <- <-;
     bind_inv H; apply transmit_bytes_inv in Hm0 as (r3 & _ & ->);
     bind_inv H; apply transmit_bits_inv in Hm0 as (r4 & -> & ->);
     destruct (r_ok r4); simpl in H.
  1: bind_inv H; apply transmit_bytes_inv in Hm0 as (r5 & -> & ->);
     destruct (r_ok r5); simpl in H.
  1: bind_inv H; apply set_property_inv in Hm0 as (r6 & -> & ->);
     destruct (r_ok r6); simpl in H.
  1: bind_inv H; apply set_property_inv in Hm0 as (r7 & -> & ->);
     destruct (r_ok r7); simpl in H.
  all: run_in H; injection H as _ <-.
  all: cbn [trace set_trace set_abtHalt abtHalt];
       rewrite <- ?app_assoc; simpl.
  all: (eexists; split; [reflexivity|]).
  all: repeat constructor.
Qed.

Lemma block_cmds_no_auth (mc : mifare_cmd) (evs : list event) :
  mc = MC_READ \/ mc = MC_WRITE ->
  Forall (fun e => is_cmd mc e = true) evs ->
  Forall no_auth_no_select evs.
Proof.
  intros Hmc H. eapply Forall_impl; [exact H|].
  intros e He. unfold is_cmd, mifare_block in He. unfold no_auth_no_select.
  destruct (ev_cmd e) as [mc' b p| | | | | |]; try discriminate He.
  destruct (decide (mc' = mc)) as [->|]; [|discriminate He].
  destruct Hmc as [-> | ->]; split; reflexivity.
Qed.

Lemma block_cmds_other (mc mc' : mifare_cmd) (evs : list event) :
  mc <> mc' ->
  Forall (fun e => is_cmd mc e = true) evs ->
  blocks_of mc' evs = [].
Proof.
  intros Hne H. induction H as [|e evs He _ IH]; [reflexivity|].
  rewrite blocks_of_cons, IH.
  unfold is_cmd, mifare_block in *.
  destruct (ev_cmd e) as [m b p| | | | | |]; try reflexivity.
  destruct (decide (m = mc)) as [->|]; [|discriminate He].
  destruct (decide (mc = mc')); [contradiction | reflexivity].
Qed.

(** [read_sector] never issues a write command; the blocks it reads are the
    blocks of the sector from the last one downwards, cut short where the
    run stops; and in unlocked mode it neither authenticates nor re-selects
    the tag. *)
Theorem read_sector_calls (lib : nfc_library) (g : globals) (iSector : Z)
    (ru : bool) (s s' : state) (r : bool) :
  read_sector lib g iSector ru s = (r, s') ->
  blocks_of MC_WRITE (emitted s s') = [] /\
  blocks_of MC_READ (emitted s s') `prefix_of` reverse (sector_blocks iSector) /\
  (ru = true -> Forall no_auth_no_select (emitted s s')).
Proof.
  intros H.
  assert (Hrd : MC_READ = MC_READ \/ MC_READ = MC_WRITE) by auto.
  assert (Hwr : MC_WRITE = MC_READ \/ MC_WRITE = MC_WRITE) by auto.
  assert (Hne : MC_READ <> MC_WRITE) by discriminate.
  rewrite sector_blocks_eq.
  change (reverse [4 * iSector; 4 * iSector + 1; 4 * iSector + 2; 4 * iSector + 3])
    with [4 * iSector + 3; 4 * iSector + 2; 4 * iSector + 1; 4 * iSector].
  apply read_sector_shape in H. cbv zeta in H.
  replace (4 * iSector + 3 - 1) with (4 * iSector + 2) in H by lia.
  replace (4 * iSector + 3 - 2) with (4 * iSector + 1) in H by lia.
  replace (4 * iSector + 3 - 3) with (4 * iSector) in H by lia.
  destruct H as (u & su & Hu & Hcase).
  assert (Hu' : exists evu, trace su = trace s ++ evu /\
                  Forall (fun e => block_io e = false) evu /\
                  Forall no_auth_no_select evu).
  { destruct ru.
    - pose proof (unlock_card_trace _ _ _ _ _ Hu) as (evu & H1 & H2 & _).
      pose proof (unlock_card_no_auth _ _ _ _ _ Hu) as (evu' & H1' & H2').
      rewrite H1 in H1'. apply app_inv_head in H1'. subst evu'. eauto.
    - injection Hu as _ <-. exists []. rewrite app_nil_r. auto. }
  destruct Hu' as (evu & Htru & Hiou & Hnau).
  destruct Hcase as [(-> & -> & ->) | (-> & ok & sa & Ha & Hcase)].
  { rewrite (emitted_app _ _ _ Htru).
    rewrite (blocks_of_no_io MC_READ evu Hrd Hiou).
    rewrite (blocks_of_no_io MC_WRITE evu Hwr Hiou).
    split; [reflexivity|]. split; [apply prefix_nil | intros _; exact Hnau]. }
  assert (Ha' : exists eva, trace sa = trace su ++ eva /\
                  Forall (fun e => block_io e = false) eva /\
                  (ru = true -> eva = [])).
  { destruct ru.
    - rewrite andb_false_r in Ha. injection Ha as _ <-.
      exists []. rewrite app_nil_r. auto.
    - destruct (is_trailer_block (4 * iSector + 3) && negb false).
      + apply authenticate_trace in Ha. destruct Ha as (eva & H1 & H2 & _).
        exists eva. repeat split; auto. discriminate.
      + injection Ha as _ <-. exists []. rewrite app_nil_r. auto. }
  destruct Ha' as (eva & Htra & Hioa & Hnil).
  rewrite Htru, <- app_assoc in Htra.
  destruct Hcase as [(-> & -> & ->) | (-> & evs & Htr & Hrun)].
  { rewrite (emitted_app _ _ _ Htra), !blocks_of_app.
    rewrite (blocks_of_no_io MC_READ evu Hrd Hiou).
    rewrite (blocks_of_no_io MC_WRITE evu Hwr Hiou).
    rewrite (blocks_of_no_io MC_READ eva Hrd Hioa).
    rewrite (blocks_of_no_io MC_WRITE eva Hwr Hioa).
    split; [reflexivity|]. split; [apply prefix_nil|].
    intros Hru. rewrite (Hnil Hru), app_nil_r. exact Hnau. }
  destruct Hrun as (Hreads & Hpre & _).
  rewrite Htra, <- !app_assoc in Htr.
  rewrite (emitted_app _ _ _ Htr), !blocks_of_app.
  rewrite (blocks_of_no_io MC_READ evu Hrd Hiou).
  rewrite (blocks_of_no_io MC_WRITE evu Hwr Hiou).
  rewrite (blocks_of_no_io MC_READ eva Hrd Hioa).
  rewrite (blocks_of_no_io MC_WRITE eva Hwr Hioa).
  rewrite (block_cmds_other MC_READ MC_WRITE evs Hne Hreads).
  split; [reflexivity|]. split; [exact Hpre|].
  intros Hru. rewrite (Hnil Hru). simpl.
  apply Forall_app. split; [exact Hnau|].
  apply (block_cmds_no_auth MC_READ evs Hrd Hreads).
Qed.

Lemma read_sector_calls_witness :
  let run := read_sector lib_ok g_guess 2 true s0 in
  blocks_of MC_READ (emitted s0 (snd run)) = [11; 10; 9; 8] /\
  blocks_of MC_WRITE (emitted s0 (snd run)) = [] /\
  Forall no_auth_no_select (emitted s0 (snd run)).
Proof.
  set (run := read_sector lib_ok g_guess 2 true s0).
  destruct (read_sector_calls lib_ok g_guess 2 true s0 (snd run) (fst run)
              ltac:(vm_compute; reflexivity)) as (Hw & _ & Hna).
  split; [vm_compute; reflexivity|]. split; [exact Hw|].
  apply Hna. reflexivity.
Defined.

(** [write_sector] never issues a read command and never changes the dump
    image; it writes blocks of the sector only, each at most once and in
    ascending order; and when block 0 may be written (unlock mode) it
    neither authenticates nor re-selects the tag, and leaves [mtKeys] as it
    was. *)
Theorem write_sector_calls (lib : nfc_library) (g : globals) (iSector : Z)
    (wbz : bool) (s s' : state) (r : bool) :
  write_sector lib g iSector wbz s = (r, s') ->
  blocks_of MC_READ (emitted s s') = [] /\
  blocks_of MC_WRITE (emitted s s') `sublist_of` sector_blocks iSector /\
  mtDump s' = mtDump s /\
  (wbz = true ->
   Forall no_auth_no_select (emitted s s') /\ mtKeys s' = mtKeys s).
Proof.
  intros H.
  assert (Hrd : MC_READ = MC_READ \/ MC_READ = MC_WRITE) by auto.
  assert (Hwr : MC_WRITE = MC_READ \/ MC_WRITE = MC_WRITE) by auto.
  assert (Hne : MC_WRITE <> MC_READ) by discriminate.
  pose proof (write_sector_events _ _ _ _ _ _ _ H)
    as (pre & evs & Hem & Hio & Hrun & Hd).
  destruct Hrun as (Hwrites & Hsub & _).
  split.
  { rewrite Hem, blocks_of_app, (blocks_of_no_io MC_READ pre Hrd Hio).
    apply (block_cmds_other MC_WRITE MC_READ evs Hne Hwrites). }
  split.
  { rewrite Hem, blocks_of_app, (blocks_of_no_io MC_WRITE pre Hwr Hio).
    exact Hsub. }
  split; [exact Hd|].
  intros ->. apply write_sector_shape in H. cbv zeta in H.
  destruct H as (u & su & Hu & Hcase).
  pose proof (unlock_card_no_auth _ _ _ _ _ Hu) as (evu & Htru & Hnau).
  pose proof (unlock_card_trace _ _ _ _ _ Hu) as (_ & _ & _ & _ & _ & Hku).
  destruct Hcase as [(-> & -> & ->) | (-> & ok & sa & Ha & Hcase)].
  { rewrite (emitted_app _ _ _ Htru). auto. }
  rewrite andb_false_r in Ha. injection Ha as <- <-.
  destruct Hcase as [(Hc & _) | (_ & evs' & Htr & Hrun' & Hk & _)];
    [discriminate Hc|].
  rewrite Htru, <- app_assoc in Htr. rewrite (emitted_app _ _ _ Htr).
  split; [|congruence].
  apply Forall_app. split; [exact Hnau|].
  destruct Hrun' as (Hw' & _).
  apply (block_cmds_no_auth MC_WRITE evs' Hwr Hw').
Qed.

Lemma write_sector_calls_witness :
  let run := write_sector lib_ok g_guess 2 true s0 in
  blocks_of MC_WRITE (emitted s0 (snd run)) = [8; 9; 10; 11] /\
  blocks_of MC_READ (emitted s0 (snd run)) = [] /\
  Forall no_auth_no_select (emitted s0 (snd run)) /\
  mtKeys (snd run) = mtKeys s0.
Proof.
  set (run := write_sector lib_ok g_guess 2 true s0).
  destruct (write_sector_calls lib_ok g_guess 2 true s0 (snd run) (fst run)
              ltac:(vm_compute; reflexivity)) as (Hr & _ & _ & Hna).
  split; [vm_compute; reflexivity|]. split; [exact Hr|].
  apply Hna. reflexivity.
Defined.
